(** * sisyphus: a FUSE-served virtual file tree (ev3go/sisyphus)

    Shallow embedding of the node constructors, the data backends
    ([Bytes], [String], [Func]), the attribute copy and merge, the file
    nodes' [Attr], [Read], [Write] and [Setattr], the directory's
    [ReadDirAll], [Lookup] and [Own], and the tree operations of
    [FileSystem] ([With], [Sync], [Bind], [Unbind], [walkPath]), followed
    by the properties of the specification stated and settled against
    that code, and by further properties of the code.

    Modelling conventions.
    - Go's [(value, error)] results are pairs whose error component is an
      [option error] ([None] is [nil]); a nil pointer or nil interface
      value is [None].
    - A run-time panic (failed type assertion, slice bounds, [make] with
      a negative size) is the outcome [Panic] of the [result] monad.
    - [int64] arithmetic that can overflow is wrapped with [wrap64].
    - Nodes are Go pointers; the hierarchy is a tree (a node sits in one
      parent slot), so a directory is modelled as a value holding its
      children, and an in-place mutation of a directory found by a path
      walk is an update of the tree at that path.
    - The injected clock [now func() time.Time] is a function of the
      number of calls made so far; operations thread that counter. *)

From stdpp Require Import gmap strings list fin_maps.
From Stdlib Require Import ZArith Ascii String Lia.
From Stdlib.Strings Require Import Byte.

Open Scope string_scope.
Open Scope Z_scope.
Open Scope list_scope.

(** ** Errors and outcomes *)

(** The [syscall] error numbers the package uses. *)
Inductive Errno := EINVAL | ENOENT | ENOTDIR | EBADFD.

(** Go [error] values that occur in the package. [ErrBadName] is the
    package's own sentinel, [EOF] is [io.EOF], [PathError] is
    [*os.PathError], [ErrnoErr] the package's [errno] wrapper and
    [Custom] any error of a user supplied backend. *)
Inductive error :=
| ErrBadName
| EOF
| Syscall (e : Errno)
| PathError (op path : string) (e : Errno)
| ErrnoErr (inner : error) (e : Errno)
| Custom (msg : string).

#[global] Instance Errno_eq_dec : EqDecision Errno.
Proof. solve_decision. Defined.

#[global] Instance error_eq_dec : EqDecision error.
Proof. solve_decision. Defined.

(** [os.IsNotExist]: the underlying error (after unwrapping a
    [*PathError]) is [ENOENT]. *)
Definition IsNotExist (err : option error) : bool :=
  match err with
  | Some (PathError _ _ ENOENT) => true
  | Some (Syscall ENOENT) => true
  | _ => false
  end.

(** Outcome of running Go code: it returns, or it panics. *)
Inductive result (A : Type) :=
| Ret (a : A)
| Panic (msg : string).
Arguments Ret {A} a.
Arguments Panic {A} msg.

#[global] Instance result_ret : MRet result := λ A a, Ret a.

#[global] Instance result_bind : MBind result := λ A B k r,
  match r with
  | Ret a => k a
  | Panic m => Panic m
  end.

(** ** Machine integers *)

Definition maxInt64 : Z := 2 ^ 63 - 1.

(** Two's complement wrap-around of an [int64] result. *)
Definition wrap64 (z : Z) : Z := (z + 2 ^ 63) mod 2 ^ 64 - 2 ^ 63.

(** The conversion [int64(x)] of a [uint64]. *)
Definition int64_of_uint64 (z : Z) : Z := wrap64 z.

(** The conversion [uint64(x)] of an [int64]. *)
Definition uint64_of_int64 (z : Z) : Z := z mod 2 ^ 64.

(** ** Strings and paths

    A Go string is a byte sequence; Rocq's [string] (a list of 8-bit
    [ascii]) is used for it. The separator is that of Unix. *)

Module Path.

Definition Separator : ascii := "/"%char.

(** [strings.Contains(name, string(filepath.Separator))]. *)
Fixpoint containsSep (s : string) : bool :=
  match s with
  | EmptyString => false
  | String c s' => if decide (c = Separator) then true else containsSep s'
  end.

(** [strings.Split(s, string(filepath.Separator))]: the fields between
    separators; a string without separator is its only field. *)
Fixpoint splitSep (s : string) : list string :=
  match s with
  | EmptyString => [EmptyString]
  | String c s' =>
      if decide (c = Separator) then EmptyString :: splitSep s'
      else match splitSep s' with
           | h :: t => String c h :: t
           | [] => [String c EmptyString]
           end
  end.

Fixpoint joinSep (l : list string) : string :=
  match l with
  | [] => EmptyString
  | [e] => e
  | e :: l' => (e ++ String Separator (joinSep l'))%string
  end.

Definition rooted (s : string) : bool :=
  match s with
  | String c _ => bool_decide (c = Separator)
  | EmptyString => false
  end.

(** One step of the lexical processing of [filepath.Clean]: [acc] holds
    the elements kept so far, last one first. *)
Definition cleanStep (isRooted : bool) (acc : list string) (e : string)
  : list string :=
  if decide (e = "") then acc
  else if decide (e = ".") then acc
  else if decide (e = "..") then
    match acc with
    | top :: rest =>
        if decide (top = "..") then e :: acc else rest
    | [] => if isRooted then [] else [e]
    end
  else e :: acc.

(** [filepath.Clean] (package [path/filepath] of the Go library, Unix):
    runs of separators count as one, [.] elements are dropped, an inner
    [..] removes the element before it, [..] at the start of a rooted
    path is dropped, and the empty result is [.]. *)
Definition Clean (path : string) : string :=
  let r := rooted path in
  let kept := rev (fold_left (cleanStep r) (splitSep path) []) in
  let body := joinSep kept in
  if r then String Separator body
  else if decide (body = "") then "." else body.

(** [filepath.Split]: the path is cut right after its last separator;
    without a separator the directory part is empty. *)
Fixpoint Split (path : string) : string * string :=
  match path with
  | EmptyString => (EmptyString, EmptyString)
  | String c s' =>
      let '(d, f) := Split s' in
      if decide (d = "") then
        if decide (c = Separator) then (String c EmptyString, f)
        else (EmptyString, String c f)
      else (String c d, f)
  end.

(** [pathElements] of fs.go: the fields of the cleaned path after the
    first one; the single empty field of the root path gives no
    element. *)
Definition pathElements (path : string) : list string :=
  let e := drop 1 (splitSep (Clean path)) in
  match e with
  | [e0] => if (String.length e0 =? 0)%nat then [] else e
  | _ => e
  end.

End Path.

(** ** Attribute model (sisyphus.go) *)

(** [time.Time]; the zero value of the type is [zeroTime]. *)
Definition Time := Z.
Definition zeroTime : Time := 0.

(** [os.FileMode] bits used by the constructors. *)
Definition ModeDir : Z := Z.shiftl 1 31.
Definition ModeSymlink : Z := Z.shiftl 1 27.
Definition ModeNamedPipe : Z := Z.shiftl 1 25.
Definition ModeSocket : Z := Z.shiftl 1 24.

(** The struct [attr]. *)
Record attr := mkAttr {
  mode : Z;
  uid : Z;
  gid : Z;
  atime : Time;
  mtime : Time;
  ctime : Time
}.

(** The zero value of [attr] with the given mode, as the constructors
    build it. *)
Definition attrOfMode (m : Z) : attr :=
  mkAttr m 0 0 zeroTime zeroTime zeroTime.

Module fuse.

(** The fields of [fuse.Attr] the package writes. *)
Record Attr := mkFuseAttr {
  Inode : Z;
  Size : Z;
  Atime : Time;
  Mtime : Time;
  Ctime : Time;
  Mode : Z;
  Uid : Z;
  Gid : Z
}.

(** [fuse.SetattrValid] flags (bazil.org/fuse). *)
Definition SetattrMode : Z := Z.shiftl 1 0.
Definition SetattrUid : Z := Z.shiftl 1 1.
Definition SetattrGid : Z := Z.shiftl 1 2.
Definition SetattrSize : Z := Z.shiftl 1 3.
Definition SetattrAtime : Z := Z.shiftl 1 4.
Definition SetattrMtime : Z := Z.shiftl 1 5.

Record SetattrRequest := mkSetattrRequest {
  reqValid : Z;
  reqSize : Z;
  reqAtime : Time;
  reqMtime : Time;
  reqMode : Z;
  reqUid : Z;
  reqGid : Z
}.

Record SetattrResponse := mkSetattrResponse { respAttr : Attr }.

(** [fuse.ReadRequest] and [fuse.ReadResponse]: the offset and size
    asked for, and the slice [Data] of the answer. *)
Record ReadRequest := mkReadRequest { readOffset : Z; readSize : Z }.

(** [fuse.WriteRequest] and [fuse.WriteResponse]. *)
Record WriteRequest := mkWriteRequest {
  writeData : list byte;
  writeOffset : Z
}.

(** [fuse.Dirent], with the fields [ReadDirAll] sets. *)
Record Dirent := mkDirent { direntInode : Z; direntName : string }.

End fuse.

(** [copyAttr]: the node attributes written into a [fuse.Attr]. *)
Definition copyAttr (dst : fuse.Attr) (src : attr) : fuse.Attr :=
  fuse.mkFuseAttr (fuse.Inode dst) (fuse.Size dst)
    (atime src) (mtime src) (ctime src) (mode src) (uid src) (gid src).

(** [src.Valid&flag != 0]. *)
Definition hasFlag (valid flag : Z) : bool :=
  negb (Z.eqb (Z.land valid flag) 0).

(** [setAttr]: each field flagged in the request is stored in the
    response and in the node attributes, in the order of the source. *)
Definition setAttr (dst : attr) (resp : fuse.SetattrResponse)
    (src : fuse.SetattrRequest) : attr * fuse.SetattrResponse :=
  let v := fuse.reqValid src in
  let a := fuse.respAttr resp in
  let '(a, dst) :=
    if hasFlag v fuse.SetattrMode then
      (fuse.mkFuseAttr (fuse.Inode a) (fuse.Size a) (fuse.Atime a)
         (fuse.Mtime a) (fuse.Ctime a) (fuse.reqMode src) (fuse.Uid a)
         (fuse.Gid a),
       mkAttr (fuse.reqMode src) (uid dst) (gid dst) (atime dst) (mtime dst)
         (ctime dst))
    else (a, dst) in
  let '(a, dst) :=
    if hasFlag v fuse.SetattrUid then
      (fuse.mkFuseAttr (fuse.Inode a) (fuse.Size a) (fuse.Atime a)
         (fuse.Mtime a) (fuse.Ctime a) (fuse.Mode a) (fuse.reqUid src)
         (fuse.Gid a),
       mkAttr (mode dst) (fuse.reqUid src) (gid dst) (atime dst) (mtime dst)
         (ctime dst))
    else (a, dst) in
  let '(a, dst) :=
    if hasFlag v fuse.SetattrGid then
      (fuse.mkFuseAttr (fuse.Inode a) (fuse.Size a) (fuse.Atime a)
         (fuse.Mtime a) (fuse.Ctime a) (fuse.Mode a) (fuse.Uid a)
         (fuse.reqGid src),
       mkAttr (mode dst) (uid dst) (fuse.reqGid src) (atime dst) (mtime dst)
         (ctime dst))
    else (a, dst) in
  let '(a, dst) :=
    if hasFlag v fuse.SetattrAtime then
      (fuse.mkFuseAttr (fuse.Inode a) (fuse.Size a) (fuse.reqAtime src)
         (fuse.Mtime a) (fuse.Ctime a) (fuse.Mode a) (fuse.Uid a)
         (fuse.Gid a),
       mkAttr (mode dst) (uid dst) (gid dst) (fuse.reqAtime src) (mtime dst)
         (ctime dst))
    else (a, dst) in
  let '(a, dst) :=
    if hasFlag v fuse.SetattrMtime then
      (fuse.mkFuseAttr (fuse.Inode a) (fuse.Size a) (fuse.Atime a)
         (fuse.reqMtime src) (fuse.Ctime a) (fuse.Mode a) (fuse.Uid a)
         (fuse.Gid a),
       mkAttr (mode dst) (uid dst) (gid dst) (atime dst) (fuse.reqMtime src)
         (ctime dst))
    else (a, dst) in
  (dst, fuse.mkSetattrResponse a).

(** ** Go slices of bytes

    A [[]byte] value is a window on a backing array: [elems] are the
    [len] visible bytes and [room] the bytes of the array after them, up
    to the capacity. Reslicing moves the border between the two. *)

Module Slice.

Record t := mk { elems : list byte; room : list byte }.

Definition Zlen {A} (l : list A) : Z := Z.of_nat (List.length l).

Definition len (s : t) : Z := Zlen (elems s).
Definition cap (s : t) : Z := Zlen (elems s) + Zlen (room s).

(** The backing array from the start of the slice. *)
Definition array (s : t) : list byte := elems s ++ room s.

Definition zeros (n : nat) : list byte := repeat x00 n.

(** [make([]byte, n)]: panics on a negative length. *)
Definition make (n : Z) : result t :=
  if n <? 0 then Panic "makeslice: len out of range"
  else Ret (mk (zeros (Z.to_nat n)) []).

(** [copy(dst, src)] on the visible bytes: the number of bytes copied is
    the smaller length. *)
Definition copy (dst src : list byte) : list byte * Z :=
  let n := Nat.min (List.length dst) (List.length src) in
  (take n src ++ drop n dst, Z.of_nat n).

(** [s[:hi]]: the upper bound may reach the capacity. *)
Definition upto (s : t) (hi : Z) : result t :=
  if (hi <? 0) || (cap s <? hi) then Panic "slice bounds out of range"
  else Ret (mk (take (Z.to_nat hi) (array s)) (drop (Z.to_nat hi) (array s))).

(** [s[lo:]]: the lower bound may reach the length. *)
Definition from (s : t) (lo : Z) : result t :=
  if (lo <? 0) || (len s <? lo) then Panic "slice bounds out of range"
  else Ret (mk (drop (Z.to_nat lo) (elems s)) (room s)).

Section Append.

(** The capacity the run time adds beyond the needed length when
    [append] has to reallocate depends on its growth policy; it is a
    parameter: [spareOnGrow oldcap needed]. *)
Variable spareOnGrow : nat → nat → nat.

(** [append(s, b...)]: in place when the capacity suffices, else into a
    fresh array whose unused part is zero. *)
Definition append (s : t) (b : list byte) : t :=
  if (List.length (elems s) + List.length b <=? List.length (array s))%nat then
    mk (elems s ++ b) (drop (List.length b) (room s))
  else
    mk (elems s ++ b)
       (zeros (spareOnGrow (List.length (array s))
                 (List.length (elems s) + List.length b))).

End Append.

End Slice.

(** ** Data backends (sisyphus.go) *)

(** What a backend call returns next to the value: [nil] or an error. *)
Abbreviation nil_error := (@None error).

Module Bytes.

(** [type Bytes []byte], used through a pointer: the methods return the
    new slice value. *)
Definition t := Slice.t.

(** [NewBytes(data)]: the given slice, capacity included. *)
Definition NewBytes (data : Slice.t) : t := data.

(** [NewBytes] applied to a slice literal or a conversion such as
    [[]byte("...")], whose capacity is its length. *)
Definition ofList (l : list byte) : t := Slice.mk l [].

(** [Bytes.ReadAt(b, offset)]: [b] is the visible part of the
    destination; the result carries its new contents. *)
Definition ReadAt (f : t) (b : list byte) (offset : Z)
  : result (list byte * Z * option error) :=
  if Z.eqb (Slice.Zlen b) 0 then Ret (b, 0, nil_error)
  else if Slice.len f <=? offset then Ret (b, 0, Some EOF)
  else
    src ← Slice.from f offset;
    let '(b', n) := Slice.copy b (Slice.elems src) in
    if n <=? Slice.Zlen b then Ret (b', n, Some EOF)
    else Ret (b', n, nil_error).

(** [Bytes.Truncate(n)]: the tail from [n] to the capacity is zeroed in the
    backing array, then the slice is cut to [n]. *)
Definition Truncate (f : t) (n : Z) : result (t * option error) :=
  if (n <? 0) || (Slice.len f <? n) then Ret (f, Some (Syscall EINVAL))
  else
    let k := Z.to_nat n in
    let arr := take k (Slice.array f)
                 ++ Slice.zeros (List.length (Slice.array f) - k) in
    f' ← Slice.upto (Slice.mk arr []) n;
    Ret (f', nil_error).

Section WriteAt.

Variable spareOnGrow : nat → nat → nat.

(** [Bytes.WriteAt(b, off)]. *)
Definition WriteAt (f : t) (b : list byte) (off : Z)
  : result (t * Z * option error) :=
  f1 ← (if Slice.cap f <=? off then
          t ← Slice.make (wrap64 (off + Slice.Zlen b));
          Ret (Slice.mk (Slice.copy (Slice.elems t) (Slice.elems f)).1
                        (Slice.room t))
        else Ret f);
  f2 ← Slice.upto f1 off;
  Ret (Slice.append spareOnGrow f2 b, Slice.Zlen b, nil_error).

End WriteAt.

(** [Bytes.Size]. *)
Definition Size (f : t) : Z * option error := (Slice.len f, nil_error).

End Bytes.

Module Func.

(** [type Func func([]byte, int64) (int, error)]; [None] is the nil
    function. *)
Definition t := option (list byte → Z → Z * option error).

Definition WriteAt (f : t) (b : list byte) (off : Z) : Z * option error :=
  match f with
  | None => (0, Some (Syscall EBADFD))
  | Some g => g b off
  end.

Definition Truncate (f : t) (n : Z) : option error := nil_error.

Definition Size (f : t) : Z * option error := (0, nil_error).

End Func.

Module GoString.

(** [type String string]. *)
Definition t := string.

Definition bytes (s : t) : list byte := list_byte_of_string s.

Definition len (s : t) : Z := Slice.Zlen (bytes s).

(** [String.ReadAt(b, off)]. *)
Definition ReadAt (s : t) (b : list byte) (off : Z)
  : list byte * Z * option error :=
  if off <? 0 then (b, 0, Some (Syscall EINVAL))
  else if len s <=? off then (b, 0, Some EOF)
  else
    let '(b', n) := Slice.copy b (drop (Z.to_nat off) (bytes s)) in
    if n <=? Slice.Zlen b then (b', n, Some EOF)
    else (b', n, nil_error).

Definition Size (s : t) : Z * option error := (len s, nil_error).

End GoString.

(** ** Backend interfaces (the Go interfaces [Reader], [Writer] and
    [ReadWriter])

    A backend is used through a pointer or holds its own state, so a
    method returns the backend after the call next to its results. *)

Class Reader (D : Type) := {
  r_ReadAt : D → list byte → Z → result (D * list byte * Z * option error);
  r_Size : D → result (Z * option error)
}.

Class Writer (D : Type) := {
  w_WriteAt : D → list byte → Z → result (D * Z * option error);
  w_Truncate : D → Z → result (D * option error);
  w_Size : D → result (Z * option error)
}.

Class ReadWriter (D : Type) := {
  rw_ReadAt : D → list byte → Z → result (D * list byte * Z * option error);
  rw_WriteAt : D → list byte → Z → result (D * Z * option error);
  rw_Truncate : D → Z → result (D * option error);
  rw_Size : D → result (Z * option error)
}.

(** [String] is a [Reader]. *)
#[global] Instance String_Reader : Reader GoString.t := {|
  r_ReadAt s b off :=
    let '(b', n, e) := GoString.ReadAt s b off in Ret (s, b', n, e);
  r_Size s := Ret (GoString.Size s)
|}.

(** [Func] is a [Writer]. *)
#[global] Instance Func_Writer : Writer Func.t := {|
  w_WriteAt f b off := let '(n, e) := Func.WriteAt f b off in Ret (f, n, e);
  w_Truncate f n := Ret (f, Func.Truncate f n);
  w_Size f := Ret (Func.Size f)
|}.

(** [*Bytes] is a [ReadWriter], and so also a [Writer]. *)
Definition Bytes_ReadWriter (spareOnGrow : nat → nat → nat)
  : ReadWriter Bytes.t := {|
  rw_ReadAt f b off := '(b', n, e) ← Bytes.ReadAt f b off; Ret (f, b', n, e);
  rw_WriteAt f b off := Bytes.WriteAt spareOnGrow f b off;
  rw_Truncate f n := Bytes.Truncate f n;
  rw_Size f := Ret (Bytes.Size f)
|}.

Definition Bytes_Writer (spareOnGrow : nat → nat → nat)
  : Writer Bytes.t := {|
  w_WriteAt f b off := Bytes.WriteAt spareOnGrow f b off;
  w_Truncate f n := Bytes.Truncate f n;
  w_Size f := Ret (Bytes.Size f)
|}.

(** ** File nodes (ro_node.go, wo_node.go, rw_node.go) *)

(** A [*FileSystem] held by a node is the address of the file system
    ([None] is nil). *)
Definition FSref := option nat.

(** The permission bits [0222] and [0444]. *)
Definition perm_w : Z := 146.
Definition perm_r : Z := 292.

(** [x &^ y]. *)
Definition andNot (x y : Z) : Z := Z.ldiff x y.

Record RO (D : Type) := mkRO {
  ro_name : string; ro_attr : attr; ro_fs : FSref; ro_dev : D }.
Record WO (D : Type) := mkWO {
  wo_name : string; wo_attr : attr; wo_fs : FSref; wo_dev : D }.
Record RW (D : Type) := mkRW {
  rw_name : string; rw_attr : attr; rw_fs : FSref; rw_dev : D }.
Arguments mkRO {D}.
Arguments ro_name {D}.
Arguments ro_attr {D}.
Arguments ro_fs {D}.
Arguments ro_dev {D}.
Arguments mkWO {D}.
Arguments wo_name {D}.
Arguments wo_attr {D}.
Arguments wo_fs {D}.
Arguments wo_dev {D}.
Arguments mkRW {D}.
Arguments rw_name {D}.
Arguments rw_attr {D}.
Arguments rw_fs {D}.
Arguments rw_dev {D}.

(** [NewRO]. *)
Definition NewRO {D} (name : string) (mode : Z) (dev : D)
  : option (RO D) * option error :=
  if Path.containsSep name then (None, Some ErrBadName)
  else (Some (mkRO name (attrOfMode (andNot mode (Z.lor ModeDir perm_w)))
                None dev), None).

(** [NewWO]: it returns the node alone and makes no check of the name. *)
Definition NewWO {D} (name : string) (mode : Z) (dev : D) : WO D :=
  mkWO name (attrOfMode (andNot mode (Z.lor ModeDir perm_r))) None dev.

(** [NewRW]. *)
Definition NewRW {D} (name : string) (mode : Z) (dev : D)
  : option (RW D) * option error :=
  if Path.containsSep name then (None, Some ErrBadName)
  else (Some (mkRW name (attrOfMode (andNot mode ModeDir)) None dev), None).

(** The first part of [Setattr], shared by [RW] and [WO]: when the
    request carries a size the backend is truncated and its size queried;
    the error, if any, is what [Setattr] returns at once. *)
Definition resize {D} (truncate : D → Z → result (D * option error))
    (size : D → result (Z * option error))
    (dev : D) (req : fuse.SetattrRequest) (resp : fuse.SetattrResponse)
  : result (D * fuse.SetattrResponse * option error) :=
  if hasFlag (fuse.reqValid req) fuse.SetattrSize then
    '(dev1, err) ← truncate dev (int64_of_uint64 (fuse.reqSize req));
    match err with
    | Some e => Ret (dev1, resp, Some e)
    | None =>
        '(sz, err) ← size dev1;
        match err with
        | Some e => Ret (dev1, resp, Some e)
        | None =>
            let a := fuse.respAttr resp in
            Ret (dev1,
                 fuse.mkSetattrResponse
                   (fuse.mkFuseAttr (fuse.Inode a) (uint64_of_int64 sz)
                      (fuse.Atime a) (fuse.Mtime a) (fuse.Ctime a)
                      (fuse.Mode a) (fuse.Uid a) (fuse.Gid a)),
                 nil_error)
        end
    end
  else Ret (dev, resp, nil_error).

(** [RW.Setattr]. *)
Definition RW_Setattr {D} `{ReadWriter D} (f : RW D)
    (req : fuse.SetattrRequest) (resp : fuse.SetattrResponse)
  : result (RW D * fuse.SetattrResponse * option error) :=
  '(dev1, resp1, err) ← resize rw_Truncate rw_Size (rw_dev f) req resp;
  let f1 := mkRW (rw_name f) (rw_attr f) (rw_fs f) dev1 in
  match err with
  | Some e => Ret (f1, resp1, Some e)
  | None =>
      let '(a, resp2) := setAttr (rw_attr f1) resp1 req in
      Ret (mkRW (rw_name f1) a (rw_fs f1) dev1, resp2, nil_error)
  end.

(** [WO.Setattr]. *)
Definition WO_Setattr {D} `{Writer D} (f : WO D)
    (req : fuse.SetattrRequest) (resp : fuse.SetattrResponse)
  : result (WO D * fuse.SetattrResponse * option error) :=
  '(dev1, resp1, err) ← resize w_Truncate w_Size (wo_dev f) req resp;
  let f1 := mkWO (wo_name f) (wo_attr f) (wo_fs f) dev1 in
  match err with
  | Some e => Ret (f1, resp1, Some e)
  | None =>
      let '(a, resp2) := setAttr (wo_attr f1) resp1 req in
      Ret (mkWO (wo_name f1) a (wo_fs f1) dev1, resp2, nil_error)
  end.

(** *** Attribute query, reading and writing

    A method that stamps a time reads the clock of the file system the
    node is bound to: [f.fs.now()]. The clock of that file system and the
    number of times it has been read are given to the method, which
    returns the new count; on a node whose [fs] is nil the call is a nil
    pointer dereference. *)

(** The second part of [Attr], shared by the file nodes: the size of
    the backend is stored, and a failure of [Size] is wrapped with
    [EBADFD]. *)
Definition attrSize (size : result (Z * option error)) (a : fuse.Attr)
  : result (fuse.Attr * option error) :=
  '(sz, err) ← size;
  match err with
  | Some e => Ret (a, Some (ErrnoErr e EBADFD))
  | None =>
      Ret (fuse.mkFuseAttr (fuse.Inode a) (uint64_of_int64 sz) (fuse.Atime a)
             (fuse.Mtime a) (fuse.Ctime a) (fuse.Mode a) (fuse.Uid a)
             (fuse.Gid a), nil_error)
  end.

(** [RO.Attr], [WO.Attr] and [RW.Attr]. *)
Definition RO_Attr {D} `{Reader D} (f : RO D) (a : fuse.Attr)
  : result (fuse.Attr * option error) :=
  attrSize (r_Size (ro_dev f)) (copyAttr a (ro_attr f)).

Definition WO_Attr {D} `{Writer D} (f : WO D) (a : fuse.Attr)
  : result (fuse.Attr * option error) :=
  attrSize (w_Size (wo_dev f)) (copyAttr a (wo_attr f)).

Definition RW_Attr {D} `{ReadWriter D} (f : RW D) (a : fuse.Attr)
  : result (fuse.Attr * option error) :=
  attrSize (rw_Size (rw_dev f)) (copyAttr a (rw_attr f)).

(** An attribute record with a new access time, and with a new
    modification time. *)
Definition withAtime (a : attr) (t : Time) : attr :=
  mkAttr (mode a) (uid a) (gid a) t (mtime a) (ctime a).

Definition withMtime (a : attr) (t : Time) : attr :=
  mkAttr (mode a) (uid a) (gid a) (atime a) t (ctime a).

(** The body of [Read] after the time stamp, shared by [RO] and [RW]:
    [ReadAt] fills [resp.Data[:req.Size]], the answer is cut to the
    count read, and [io.EOF] is turned into success. *)
Definition readInto {D}
    (readAt : D → list byte → Z → result (D * list byte * Z * option error))
    (dev : D) (req : fuse.ReadRequest) (data : Slice.t)
  : result (D * Slice.t * option error) :=
  buf ← Slice.upto data (fuse.readSize req);
  '(dev', b', n, err) ← readAt dev (Slice.elems buf) (fuse.readOffset req);
  data' ← Slice.upto (Slice.mk b' (Slice.room buf)) n;
  Ret (dev', data',
       if bool_decide (err = Some EOF) then nil_error else err).

(** [RW.Read]. *)
Definition RW_Read {D} `{ReadWriter D} (clock : nat → Time) (c : nat)
    (f : RW D) (req : fuse.ReadRequest) (data : Slice.t)
  : result (RW D * Slice.t * option error * nat) :=
  match rw_fs f with
  | None => Panic "nil pointer dereference"
  | Some _ =>
      let a := withAtime (rw_attr f) (clock c) in
      '(dev', data', err) ← readInto rw_ReadAt (rw_dev f) req data;
      Ret (mkRW (rw_name f) a (rw_fs f) dev', data', err, S c)
  end.

(** [RO.Read]. *)
Definition RO_Read {D} `{Reader D} (clock : nat → Time) (c : nat)
    (f : RO D) (req : fuse.ReadRequest) (data : Slice.t)
  : result (RO D * Slice.t * option error * nat) :=
  match ro_fs f with
  | None => Panic "nil pointer dereference"
  | Some _ =>
      let a := withAtime (ro_attr f) (clock c) in
      '(dev', data', err) ← readInto r_ReadAt (ro_dev f) req data;
      Ret (mkRO (ro_name f) a (ro_fs f) dev', data', err, S c)
  end.

(** [RW.Write]: the result carries [resp.Size]. *)
Definition RW_Write {D} `{ReadWriter D} (clock : nat → Time) (c : nat)
    (f : RW D) (req : fuse.WriteRequest)
  : result (RW D * Z * option error * nat) :=
  match rw_fs f with
  | None => Panic "nil pointer dereference"
  | Some _ =>
      let a := withMtime (rw_attr f) (clock c) in
      '(dev', n, err) ←
        rw_WriteAt (rw_dev f) (fuse.writeData req) (fuse.writeOffset req);
      Ret (mkRW (rw_name f) a (rw_fs f) dev', n, err, S c)
  end.

(** [WO.Write]. *)
Definition WO_Write {D} `{Writer D} (clock : nat → Time) (c : nat)
    (f : WO D) (req : fuse.WriteRequest)
  : result (WO D * Z * option error * nat) :=
  match wo_fs f with
  | None => Panic "nil pointer dereference"
  | Some _ =>
      let a := withMtime (wo_attr f) (clock c) in
      '(dev', n, err) ←
        w_WriteAt (wo_dev f) (fuse.writeData req) (fuse.writeOffset req);
      Ret (mkWO (wo_name f) a (wo_fs f) dev', n, err, S c)
  end.

(** ** The tree (dir.go, fs.go) *)

Section Tree.

(** The backend types of the read-only, write-only and read-write files
    of the tree. *)
Context {R W X : Type}.

(** The implementations of the interface [Node]. A directory holds its
    children by name: [files map[string]Node]. *)
Inductive Node :=
| NDir (d : Dir)
| NRO (f : RO R)
| NWO (f : WO W)
| NRW (f : RW X)
with Dir :=
| mkDir (name : string) (a : attr) (files : gmap string Node) (fs : FSref).

Definition d_name (d : Dir) : string := let 'mkDir n _ _ _ := d in n.
Definition d_attr (d : Dir) : attr := let 'mkDir _ a _ _ := d in a.
Definition files (d : Dir) : gmap string Node := let 'mkDir _ _ f _ := d in f.
Definition d_fs (d : Dir) : FSref := let 'mkDir _ _ _ s := d in s.

(** [d.files = fl] on a directory value. *)
Definition withFiles (d : Dir) (fl : gmap string Node) : Dir :=
  mkDir (d_name d) (d_attr d) fl (d_fs d).

(** [NewDir]. *)
Definition NewDir (name : string) (mode : Z) : option Dir * option error :=
  if negb (bool_decide (name = "/")) && Path.containsSep name
  then (None, Some ErrBadName)
  else (Some (mkDir name
                (attrOfMode
                   (Z.lor ModeDir
                      (andNot mode
                         (Z.lor ModeSymlink (Z.lor ModeNamedPipe ModeSocket)))))
                ∅ None), None).

(** The method [Name] of each node type. *)
Definition Name (n : Node) : string :=
  match n with
  | NDir d => d_name d
  | NRO f => ro_name f
  | NWO f => wo_name f
  | NRW f => rw_name f
  end.

(** The method [Sys]. *)
Definition Sys (n : Node) : FSref :=
  match n with
  | NDir d => d_fs d
  | NRO f => ro_fs f
  | NWO f => wo_fs f
  | NRW f => rw_fs f
  end.

(** The attribute record of a node. *)
Definition nodeAttr (n : Node) : attr :=
  match n with
  | NDir d => d_attr d
  | NRO f => ro_attr f
  | NWO f => wo_attr f
  | NRW f => rw_attr f
  end.

(** The three time stamps set to [now]. *)
Definition stamp (a : attr) (now : Time) : attr :=
  mkAttr (mode a) (uid a) (gid a) now now now.

(** [SetSys(filesys)], the same in the four node types: the
    back-reference is stored; the clock of the file system is read when
    it is not nil, and the three time stamps are set. [c] counts the
    calls of the clock. *)
Definition SetSys (n : Node) (filesys : FSref) (clock : nat → Time) (c : nat)
  : Node * nat :=
  let '(now, c') :=
    match filesys with
    | Some _ => (clock c, S c)
    | None => (zeroTime, c)
    end in
  (match n with
   | NDir d => NDir (mkDir (d_name d) (stamp (d_attr d) now) (files d) filesys)
   | NRO f => NRO (mkRO (ro_name f) (stamp (ro_attr f) now) filesys (ro_dev f))
   | NWO f => NWO (mkWO (wo_name f) (stamp (wo_attr f) now) filesys (wo_dev f))
   | NRW f => NRW (mkRW (rw_name f) (stamp (rw_attr f) now) filesys (rw_dev f))
   end, c').

(** A directory node with its children replaced; other nodes as they
    are. *)
Definition setFiles (n : Node) (fl : gmap string Node) : Node :=
  match n with
  | NDir d => NDir (withFiles d fl)
  | _ => n
  end.

(** [Dir.With(nodes...)]. *)
Definition Dir_With (d : Dir) (nodes : list Node) : Dir :=
  fold_left (λ d n, withFiles d (<[Name n := n]> (files d))) nodes d.

(** One turn of the loop [for _, f := range dir.files { fs.sync(f) }]:
    the child [f] at key [k] is visited by [s] with the clock count
    reached so far, and what it has become is the child at [k]. *)
Definition visit (s : Node → nat → Node * nat) (k : string) (f : Node)
    (acc : gmap string Node * nat) : gmap string Node * nat :=
  let '(f', cj) := s f acc.2 in (<[k:=f']> acc.1, cj).

(** [FileSystem.sync(n)] for the file system at [filesys] with clock
    [clock]: a node whose back-reference differs is rebound with
    [SetSys]; the children of a directory are visited in the order of the
    map, each visit handing the clock count to the next. *)
Fixpoint sync (filesys : FSref) (clock : nat → Time) (n : Node) (c : nat)
  {struct n} : Node * nat :=
  let '(n1, c1) :=
    if bool_decide (Sys n = filesys) then (n, c)
    else SetSys n filesys clock c in
  match n with
  | NDir d =>
      let '(fl, c2) :=
        map_fold (visit (sync filesys clock)) (∅, c1) (files d) in
      (setFiles n1 fl, c2)
  | _ => (n1, c1)
  end.

(** The loop of [walkPath]: [i] is the index of the element [e] at the
    head of [es] and [len] is [len(elements)]. *)
Fixpoint walkLoop (op path : string) (len : nat) (d : Dir) (i : nat)
    (es : list string) : result (option Node * option error) :=
  match es with
  | [] => Panic "cannot reach"
  | e :: es' =>
      match files d !! e with
      | None =>
          if (i <? len - 1)%nat then Ret (None, Some (PathError op path ENOENT))
          else Ret (Some (NDir d), Some (PathError op path ENOENT))
      | Some n =>
          if (i =? len - 1)%nat then Ret (Some n, nil_error)
          else match n with
               | NDir d' => walkLoop op path len d' (S i) es'
               | _ => Ret (None, Some (PathError op path ENOTDIR))
               end
      end
  end.

(** [walkPath(d, op, path)]. *)
Definition walkPath (d : Dir) (op path : string)
  : result (option Node * option error) :=
  let elements := Path.pathElements path in
  if (List.length elements =? 0)%nat then Ret (Some (NDir d), nil_error)
  else walkLoop op path (List.length elements) d 0 elements.

(** The directory reached from [d] through the elements [es] replaced by
    what [g] makes of it; [d] is unchanged when the elements do not lead
    to a directory. This is the effect in the tree of mutating the
    directory a walk has returned. *)
Fixpoint updateDirAt (es : list string) (g : Dir → nat → Dir * nat) (d : Dir)
    (c : nat) : Dir * nat :=
  match es with
  | [] => g d c
  | e :: es' =>
      match files d !! e with
      | Some (NDir d') =>
          let '(d'', c') := updateDirAt es' g d' c in
          (withFiles d (<[e := NDir d'']> (files d)), c')
      | _ => (d, c)
      end
  end.

(** The struct [FileSystem]: its address, its root, its clock and the
    number of times the clock has been read. *)
Record FileSystem := mkFS {
  addr : nat;
  root : Dir;
  now : nat → Time;
  ticks : nat
}.

(** [sync] applied to a directory gives a directory. *)
Definition syncDir (filesys : FSref) (clock : nat → Time) (d : Dir) (c : nat)
  : Dir * nat :=
  match sync filesys clock (NDir d) c with
  | (NDir d', c') => (d', c')
  | (_, c') => (d, c')
  end.

(** [NewFileSystem(mode, clock)] for a file system allocated at [a]:
    the root is the directory that [NewDir("/", mode)] returns, bound to
    the file system. *)
Definition NewFileSystem (a : nat) (mode : Z) (clock : nat → Time)
  : option FileSystem :=
  match NewDir "/" mode with
  | (Some r, _) =>
      match SetSys (NDir r) (Some a) clock 0 with
      | (NDir r', c) => Some (mkFS a r' clock c)
      | _ => None
      end
  | (None, _) => None
  end.

(** [FileSystem.With(nodes...)]. *)
Definition FS_With (fs : FileSystem) (nodes : list Node) : FileSystem :=
  mkFS (addr fs) (Dir_With (root fs) nodes) (now fs) (ticks fs).

(** [FileSystem.Sync()]. *)
Definition FS_Sync (fs : FileSystem) : FileSystem :=
  let '(r, c) := syncDir (Some (addr fs)) (now fs) (root fs) (ticks fs) in
  mkFS (addr fs) r (now fs) c.

(** [FileSystem.bind(dir, n)] (the body of [Bind]): the type assertion
    of the walked node to a directory panics on any other node and on
    nil. *)
Definition bind (fs : FileSystem) (dir : string) (n : Node)
  : result (FileSystem * option error) :=
  let dir := Path.Clean dir in
  '(d, err) ← walkPath (root fs) "open" dir;
  if IsNotExist err then Ret (fs, Some (PathError "open" dir ENOENT))
  else
    match d with
    | Some (NDir _) =>
        let '(r, c) :=
          updateDirAt (Path.pathElements dir)
            (λ d0 c0,
               syncDir (Some (addr fs)) (now fs)
                 (withFiles d0 (<[Name n := n]> (files d0))) c0)
            (root fs) (ticks fs) in
        Ret (mkFS (addr fs) r (now fs) c, nil_error)
    | _ => Panic "interface conversion: Node is not *Dir"
    end.

Definition Bind := bind.

(** [FileSystem.Unbind(path)]. The guard on the root path evaluates
    [path[0]] only when [len(path) == 0]. [nofs] is the nil file
    system. *)
Definition Unbind (fs : FileSystem) (path : string)
  : result (FileSystem * option Node * option error) :=
  let path := Path.Clean path in
  guard ←
    (if (String.length path =? 0)%nat then
       match String.get 0 path with
       | Some ch => Ret (bool_decide (ch = Path.Separator))
       | None => Panic "index out of range"
       end
     else Ret false);
  if (guard : bool) then Ret (fs, None, Some (PathError "unbind" path EINVAL))
  else
    let '(dir, name) := Path.Split path in
    '(n, err) ← walkPath (root fs) "unbind" dir;
    match err with
    | Some e => Ret (fs, None, Some e)
    | None =>
        match n with
        | Some (NDir d) =>
            match files d !! name with
            | None => Ret (fs, None, Some (PathError "unbind" path ENOENT))
            | Some node =>
                let '(r, _) :=
                  updateDirAt (Path.pathElements dir)
                    (λ d0 c0, (withFiles d0 (delete name (files d0)), c0))
                    (root fs) (ticks fs) in
                let '(node', c) := sync None (now fs) node (ticks fs) in
                Ret (mkFS (addr fs) r (now fs) c, Some node', nil_error)
            end
        | _ => Panic "interface conversion: Node is not *Dir"
        end
    end.

(** *** Directory listing and lookup *)

Section DirOps.

Context `{!Reader R, !Writer W, !ReadWriter X}.

(** The method [Attr] of each node type; [Dir.Attr] copies the
    attributes and never fails. *)
Definition Node_Attr (n : Node) (a : fuse.Attr)
  : result (fuse.Attr * option error) :=
  match n with
  | NDir d => Ret (copyAttr a (d_attr d), nil_error)
  | NRO f => RO_Attr f a
  | NWO f => WO_Attr f a
  | NRW f => RW_Attr f a
  end.

(** The loop of [ReadDirAll] over the children in the order [l]: the
    one [fuse.Attr] variable is handed to [Attr] of each child, and the
    entry takes its inode from it. A failing [Attr] ends the loop with
    the entries made so far. *)
Fixpoint readDirLoop (l : list (string * Node)) (a : fuse.Attr)
    (acc : list fuse.Dirent) : result (list fuse.Dirent * option error) :=
  match l with
  | [] => Ret (acc, nil_error)
  | (name, f) :: l' =>
      '(a', err) ← Node_Attr f a;
      match err with
      | Some e => Ret (acc, Some e)
      | None =>
          readDirLoop l' a' (acc ++ [fuse.mkDirent (fuse.Inode a') name])
      end
  end.

(** The zero value of [fuse.Attr]. *)
Definition zeroAttr : fuse.Attr :=
  fuse.mkFuseAttr 0 0 zeroTime zeroTime zeroTime 0 0 0.

(** [Dir.ReadDirAll]: the children are visited in the order of the
    map; after a complete listing the access time is stamped. *)
Definition Dir_ReadDirAll (clock : nat → Time) (c : nat) (d : Dir)
  : result (Dir * list fuse.Dirent * option error * nat) :=
  '(entries, err) ← readDirLoop (map_to_list (files d)) zeroAttr [];
  match err with
  | Some e => Ret (d, entries, Some e, c)
  | None =>
      match d_fs d with
      | None => Panic "nil pointer dereference"
      | Some _ =>
          Ret (mkDir (d_name d) (withAtime (d_attr d) (clock c)) (files d)
                 (d_fs d), entries, nil_error, S c)
      end
  end.

End DirOps.

(** [Dir.Lookup]: [fuse.ENOENT] is the error number [ENOENT]. *)
Definition Dir_Lookup (clock : nat → Time) (c : nat) (d : Dir)
    (name : string) : result (Dir * option Node * option error * nat) :=
  match d_fs d with
  | None => Panic "nil pointer dereference"
  | Some _ =>
      let d' := mkDir (d_name d) (withAtime (d_attr d) (clock c)) (files d)
                  (d_fs d) in
      match files d !! name with
      | None => Ret (d', None, Some (Syscall ENOENT), S c)
      | Some n => Ret (d', Some n, nil_error, S c)
      end
  end.

(** [Dir.Own]: the modification time is read from the clock of the
    file system. *)
Definition Dir_Own (clock : nat → Time) (c : nat) (d : Dir) (u g : Z)
  : result (Dir * nat) :=
  match d_fs d with
  | None => Panic "nil pointer dereference"
  | Some _ =>
      Ret (mkDir (d_name d)
             (mkAttr (mode (d_attr d)) u g (atime (d_attr d)) (clock c)
                (ctime (d_attr d)))
             (files d) (d_fs d), S c)
  end.

(** The type assertion of a node to a directory, with its [ok] flag. *)
Definition asDir (n : Node) : option Dir :=
  match n with
  | NDir d => Some d
  | _ => None
  end.

(** *** Notions used to state the properties *)

(** [reachable n m]: the node [m] is [n] or lies below it. *)
Inductive reachable : Node → Node → Prop :=
| reach_here n : reachable n n
| reach_child d k ch m :
    files d !! k = Some ch → reachable ch m → reachable (NDir d) m.

(** Every node of the subtree of [n] has the back-reference [filesys]. *)
Fixpoint allSys (filesys : FSref) (n : Node) {struct n} : bool :=
  bool_decide (Sys n = filesys) &&
  match n with
  | NDir d => map_fold (λ _ ch acc, allSys filesys ch && acc) true (files d)
  | _ => true
  end.

(** The directory that the elements [es] lead to from [d], each element
    naming a child that is a directory. *)
Fixpoint descend (d : Dir) (es : list string) : option Dir :=
  match es with
  | [] => Some d
  | e :: es' =>
      match files d !! e with
      | Some (NDir d') => descend d' es'
      | _ => None
      end
  end.

(** Number of nodes of the subtree of [n] whose back-reference is not
    [filesys]. *)
Fixpoint stale (filesys : FSref) (n : Node) {struct n} : nat :=
  ((if bool_decide (Sys n = filesys) then 0 else 1) +
   match n with
   | NDir d =>
       map_fold (λ _ ch acc, (stale filesys ch + acc)%nat) 0%nat (files d)
   | _ => 0
   end)%nat.

(** The child of a node under a name; a file has none. *)
Definition child (n : Node) (k : string) : option Node :=
  match n with
  | NDir d => files d !! k
  | _ => None
  end.

(** The node found from [n] by following the names [ks] through
    children. *)
Fixpoint nodeAt (n : Node) (ks : list string) : option Node :=
  match ks with
  | [] => Some n
  | k :: ks' =>
      match child n k with
      | Some ch => nodeAt ch ks'
      | None => None
      end
  end.

(** [m'] is the node [m] but for its back-reference, its time stamps
    and what lies below it: same type of node, same name, mode, owner and
    group, and the same backend for a file. *)
Definition sameNode (m m' : Node) : Prop :=
  Name m' = Name m
  ∧ mode (nodeAttr m') = mode (nodeAttr m)
  ∧ uid (nodeAttr m') = uid (nodeAttr m)
  ∧ gid (nodeAttr m') = gid (nodeAttr m)
  ∧ match m, m' with
    | NDir _, NDir _ => True
    | NRO f, NRO f' => ro_dev f' = ro_dev f
    | NWO f, NWO f' => wo_dev f' = wo_dev f
    | NRW f, NRW f' => rw_dev f' = rw_dev f
    | _, _ => False
    end.

(** Number of nodes of a subtree. *)
Fixpoint nodeSize (n : Node) : nat :=
  match n with
  | NDir d => S (map_fold (λ _ ch acc, (nodeSize ch + acc)%nat) 0%nat (files d))
  | _ => 1%nat
  end.

End Tree.

Arguments Node : clear implicits.
Arguments Dir : clear implicits.
Arguments FileSystem : clear implicits.

(** ** A concrete tree

    The tree of the package's test: [sys/class/...] with a write-only
    command file, and [dev] with the read-write file [foo] and the
    read-only file below [input/by-path]. *)

Module Sample.

Abbreviation node := (Node GoString.t Func.t Bytes.t).
Abbreviation dir := (Dir GoString.t Func.t Bytes.t).
Abbreviation filesystem := (FileSystem GoString.t Func.t Bytes.t).

Definition bytesOf (s : string) : list byte := list_byte_of_string s.

(** The constructors used as in the test, where the names are valid. *)
Definition d (name : string) (mode : Z) (children : list node) : node :=
  match NewDir name mode with
  | (Some x, _) => NDir (Dir_With x children)
  | _ => NDir (mkDir name (attrOfMode 0) ∅ None)
  end.

Definition rw (name : string) (mode : Z) (dev : Bytes.t) : node :=
  match NewRW name mode dev with
  | (Some x, _) => NRW x
  | _ => NRW (mkRW name (attrOfMode 0) None dev)
  end.

Definition ro (name : string) (mode : Z) (dev : GoString.t) : node :=
  match NewRO name mode dev with
  | (Some x, _) => NRO x
  | _ => NRO (mkRO name (attrOfMode 0) None dev)
  end.

Definition wo (name : string) (mode : Z) (dev : Func.t) : node :=
  NWO (NewWO name mode dev).

(** A clock that advances at each reading. *)
Definition clock (n : nat) : Time := 1000 + Z.of_nat n.

(** A command function that accepts everything. *)
Definition command : Func.t := Some (λ b _, (Slice.Zlen b, nil_error)).

Definition tree : list node :=
  [ d "sys" 509
      [ d "class" 509
          [ d "leds" 509 [];
            d "tacho-motor" 509 [ wo "command" 146 command ] ] ];
    d "dev" 509
      [ rw "foo" 438 (Bytes.ofList (bytesOf "with data already here"));
        d "input" 509
          [ d "by-path" 509
              [ ro "platform-gpio-keys.0-event" 438 "constant data" ] ] ] ].

(** The file system as [NewFileSystem(0775, clock).With(...)] leaves
    it, before [Sync]. *)
Definition unsynced : filesystem :=
  match NewFileSystem 1%nat 509 clock with
  | Some fs => FS_With fs tree
  | None => mkFS 1%nat (mkDir "/" (attrOfMode 0) ∅ None) clock 0
  end.

(** The same after [Sync()]. *)
Definition sysfs : filesystem := FS_Sync unsynced.

(** The directory [/dev] of [sysfs]. *)
Definition devDir : dir :=
  match descend (root sysfs) ["dev"] with
  | Some x => x
  | None => root sysfs
  end.

(** A node to bind. *)
Definition extra : node := d "extra" 509 [].

(** The read-write file [/dev/foo] of [sysfs]. *)
Definition fooFile : node := default extra (files devDir !! "foo").

(** [Unbind("/dev/input")] on [sysfs]: the file system afterwards and
    the node returned. *)
Definition afterUnbind : filesystem :=
  match Unbind sysfs "/dev/input" with
  | Ret (fs, _, _) => fs
  | Panic _ => sysfs
  end.

Definition detached : node :=
  match Unbind sysfs "/dev/input" with
  | Ret (_, Some n, _) => n
  | _ => extra
  end.

(** The read-only file two levels below the detached directory. *)
Definition detachedFile : node :=
  match detached with
  | NDir x =>
      match descend x ["by-path"] with
      | Some y => default extra (files y !! "platform-gpio-keys.0-event")
      | None => extra
      end
  | _ => extra
  end.

(** The growth policy used where a concrete one is needed: no spare
    capacity. *)
Definition exactGrowth (oldcap needed : nat) : nat := 0%nat.

End Sample.

(** * Properties *)

(** ** The outcome monad *)

Lemma bind_Ret {A B} (a : A) (k : A → result B) : Ret a ≫= k = k a.
Proof. reflexivity. Qed.

Lemma bind_Panic {A B} (m : string) (k : A → result B) :
  Panic m ≫= k = Panic m.
Proof. reflexivity. Qed.

Ltac run := repeat (rewrite bind_Ret || rewrite bind_Panic); cbv beta.

(** ** Machine integers and slices *)

Lemma wrap64_small z : - 2 ^ 63 ≤ z ≤ maxInt64 → wrap64 z = z.
Proof.
  unfold wrap64, maxInt64. intros Hz.
  rewrite Z.mod_small by lia. lia.
Qed.

Section SliceFacts.

Import Slice.

Lemma Zlen_nonneg {A} (l : list A) : 0 ≤ Zlen l.
Proof. unfold Zlen. lia. Qed.

Lemma Zlen_app {A} (l k : list A) : Zlen (l ++ k) = Zlen l + Zlen k.
Proof. unfold Zlen. rewrite length_app. lia. Qed.

Lemma length_zeros n : List.length (zeros n) = n.
Proof. apply repeat_length. Qed.

Lemma length_array s : List.length (array s)
                       = (List.length (elems s) + List.length (room s))%nat.
Proof. unfold array. apply length_app. Qed.

Lemma cap_array s : cap s = Zlen (array s).
Proof. unfold cap, array. by rewrite Zlen_app. Qed.

Lemma len_le_cap s : len s ≤ cap s.
Proof. unfold len, cap. pose proof (Zlen_nonneg (room s)). lia. Qed.

Lemma take_zeros n k : take n (zeros k) = zeros (Nat.min n k).
Proof.
  revert k. induction n as [|n IH]; intros [|k]; simpl; try done.
  by rewrite IH.
Qed.

Lemma drop_zeros n k : drop n (zeros k) = zeros (k - n).
Proof.
  revert k. induction n as [|n IH]; intros [|k]; simpl; try done.
Qed.

Variable spareOnGrow : nat → nat → nat.

Lemma append_elems s b : elems (append spareOnGrow s b) = elems s ++ b.
Proof. unfold append. by case_match. Qed.

Lemma append_in_place s b :
  (List.length b ≤ List.length (room s))%nat →
  append spareOnGrow s b = mk (elems s ++ b) (drop (List.length b) (room s)).
Proof.
  intros Hle. unfold append. rewrite length_array.
  destruct (_ <=? _)%nat eqn:E; [done|].
  apply Nat.leb_gt in E. lia.
Qed.

Lemma upto_ok s hi :
  0 ≤ hi ≤ cap s →
  upto s hi = Ret (mk (take (Z.to_nat hi) (array s))
                      (drop (Z.to_nat hi) (array s))).
Proof.
  intros [H0 H1]. unfold upto.
  destruct (hi <? 0) eqn:E0; [lia|].
  destruct (cap s <? hi) eqn:E1; [lia|]. done.
Qed.

Lemma copy_into_zeros n (src : list byte) :
  (List.length src ≤ n)%nat →
  copy (zeros n) src = (src ++ zeros (n - List.length src), Zlen src).
Proof.
  intros Hle. unfold copy. rewrite length_zeros.
  rewrite Nat.min_r by done.
  rewrite firstn_all, drop_zeros. done.
Qed.

End SliceFacts.

(** ** The growable buffer *)

Section BytesFacts.

Import Slice.

Variable spareOnGrow : nat → nat → nat.

(** A write below the capacity reslices the array up to the offset and
    appends. *)
Lemma WriteAt_below_cap f b off :
  0 ≤ off → off < cap f →
  Bytes.WriteAt spareOnGrow f b off
  = Ret (append spareOnGrow
           (mk (take (Z.to_nat off) (array f)) (drop (Z.to_nat off) (array f)))
           b, Zlen b, nil_error).
Proof.
  intros H0 H1. unfold Bytes.WriteAt.
  destruct (cap f <=? off) eqn:E; [lia|].
  run. rewrite upto_ok by lia. by run.
Qed.

(** A write at or beyond the capacity moves the visible bytes to a fresh
    array: the gap up to the offset is zero. *)
Lemma WriteAt_beyond_cap f b off :
  cap f ≤ off → off + Zlen b ≤ maxInt64 →
  Bytes.WriteAt spareOnGrow f b off
  = Ret (mk (elems f ++ zeros (Z.to_nat off - List.length (elems f)) ++ b) [],
         Zlen b, nil_error).
Proof.
  intros H0 H1. unfold Bytes.WriteAt.
  pose proof (len_le_cap f) as Hlc. pose proof (Zlen_nonneg b) as Hb.
  pose proof (Zlen_nonneg (elems f)) as He. unfold len in Hlc.
  destruct (cap f <=? off) eqn:E; [|lia].
  rewrite wrap64_small by (unfold maxInt64 in *; lia).
  unfold make. destruct (off + Zlen b <? 0) eqn:E2; [lia|].
  run. cbn [elems room].
  rewrite copy_into_zeros by (unfold Zlen in *; lia).
  cbn [fst].
  set (n := Z.to_nat (off + Zlen b)).
  set (k := List.length (elems f)).
  assert (Hk : (k ≤ Z.to_nat off)%nat) by (unfold Zlen in *; lia).
  assert (Hn : n = (Z.to_nat off + List.length b)%nat)
    by (unfold n, Zlen in *; lia).
  rewrite upto_ok.
  2:{ unfold cap, Zlen; simpl. rewrite length_app, length_zeros.
      unfold Zlen in *. lia. }
  run. unfold array; simpl. rewrite app_nil_r.
  rewrite take_app_ge, drop_app_ge by lia.
  rewrite take_zeros, drop_zeros. fold k.
  replace (Nat.min (Z.to_nat off - k) (n - k)) with (Z.to_nat off - k)%nat
    by lia.
  replace (n - k - (Z.to_nat off - k))%nat with (List.length b) by lia.
  rewrite append_in_place by (cbn [room]; by rewrite length_zeros).
  cbn [elems room]. rewrite drop_zeros, Nat.sub_diag.
  by rewrite <- app_assoc.
Qed.

(** What [Bytes.ReadAt] does on a non-empty destination and a
    non-negative offset: it copies what lies between the offset and the end
    of the visible bytes, as far as the destination has room. *)
Lemma Bytes_ReadAt_eq (f : Bytes.t) b off :
  b ≠ [] → 0 ≤ off →
  let n := Nat.min (List.length b) (List.length (elems f) - Z.to_nat off) in
  Bytes.ReadAt f b off
  = Ret (take n (drop (Z.to_nat off) (elems f)) ++ drop n b, Z.of_nat n,
         Some EOF).
Proof.
  intros Hb Hoff n. unfold Bytes.ReadAt.
  destruct (Z.eqb (Zlen b) 0) eqn:E0.
  { apply Z.eqb_eq in E0. destruct b; [done|]. unfold Zlen in E0.
    simpl in E0. lia. }
  destruct (len f <=? off) eqn:E1.
  - apply Z.leb_le in E1. unfold len, Zlen in E1.
    assert (Hn : n = 0%nat) by (unfold n; lia).
    rewrite Hn. by rewrite take_0, drop_0.
  - apply Z.leb_gt in E1. unfold from.
    destruct (off <? 0) eqn:E2; [lia|].
    destruct (len f <? off) eqn:E3; [lia|].
    simpl. run. cbn [elems]. unfold copy.
    rewrite length_drop. fold n.
    destruct (Z.of_nat n <=? Zlen b) eqn:E4; [done|].
    apply Z.leb_gt in E4. unfold Zlen, n in E4. lia.
Qed.

(** The same for [String.ReadAt]; an empty destination is not set
    apart there. *)
Lemma String_ReadAt_eq (s : GoString.t) b off :
  0 ≤ off →
  let n := Nat.min (List.length b)
             (List.length (GoString.bytes s) - Z.to_nat off) in
  GoString.ReadAt s b off
  = (take n (drop (Z.to_nat off) (GoString.bytes s)) ++ drop n b, Z.of_nat n,
     Some EOF).
Proof.
  intros Hoff n. unfold GoString.ReadAt.
  destruct (off <? 0) eqn:E0; [lia|].
  destruct (GoString.len s <=? off) eqn:E1.
  - apply Z.leb_le in E1. unfold GoString.len, Zlen in E1.
    assert (Hn : n = 0%nat) by (unfold n; lia).
    rewrite Hn. by rewrite take_0, drop_0.
  - unfold copy. rewrite length_drop. fold n.
    destruct (Z.of_nat n <=? Zlen b) eqn:E4; [done|].
    apply Z.leb_gt in E4. unfold Zlen, n in E4. lia.
Qed.

End BytesFacts.

(** The slip in the end-of-data test of [ReadAt]: the count returned by
    [copy] never exceeds the destination, so a read that ends inside the
    data carries the end-of-data signal too. *)
Example ReadAt_inside_reports_EOF :
  Bytes.ReadAt (Bytes.ofList (Sample.bytesOf "hello")) (Slice.zeros 2) 0
  = Ret (Sample.bytesOf "he", 2, Some EOF)
  ∧ GoString.ReadAt "hello" (Slice.zeros 2) 0
    = (Sample.bytesOf "he", 2, Some EOF).
Proof. split; reflexivity. Qed.

(** ** Claims on the data backends *)

(** C3, as stated, fails: [Bytes.ReadAt] with an empty destination
    returns [(0, nil)] before it looks at the offset, so an offset past
    the end of the data does not give the end-of-data signal. *)
Lemma ReadAt_empty_destination_no_EOF :
  let f := Bytes.ofList (Sample.bytesOf "abc") in
  ∃ b' n e,
    Bytes.ReadAt f [] 5 = Ret (b', n, e)
    ∧ ¬ (e = Some EOF ↔ (Slice.len f ≤ 5 ∨ 5 + n = Slice.len f)).
Proof.
  exists [], 0, nil_error. split; [reflexivity|].
  intros [_ H].
  assert (Hle : Slice.len (Bytes.ofList (Sample.bytesOf "abc")) ≤ 5)
    by (vm_compute; discriminate).
  specialize (H (or_introl Hle)). discriminate.
Qed.

(** C3, amended: on a non-negative offset, [Bytes.ReadAt] with a
    non-empty destination and [String.ReadAt] copy the bytes from the
    offset on, as many as the destination holds and the data has, and
    they report end of data when the offset reaches or passes the length
    of the data or the bytes returned end at its last byte;
    [Bytes.ReadAt] with an empty destination returns [(0, nil)] at every
    offset. *)
Theorem ReadAt_end_of_data :
  (∀ (f : Bytes.t) b off, b ≠ [] → 0 ≤ off →
     ∃ n e,
       Bytes.ReadAt f b off
       = Ret (take n (drop (Z.to_nat off) (Slice.elems f)) ++ drop n b,
              Z.of_nat n, e)
       ∧ n = Nat.min (List.length b)
               (List.length (Slice.elems f) - Z.to_nat off)
       ∧ (Slice.len f ≤ off ∨ off + Z.of_nat n = Slice.len f →
          e = Some EOF))
  ∧ (∀ (f : Bytes.t) off, Bytes.ReadAt f [] off = Ret ([], 0, nil_error))
  ∧ (∀ (s : GoString.t) b off, 0 ≤ off →
     ∃ n e,
       GoString.ReadAt s b off
       = (take n (drop (Z.to_nat off) (GoString.bytes s)) ++ drop n b,
          Z.of_nat n, e)
       ∧ n = Nat.min (List.length b)
               (List.length (GoString.bytes s) - Z.to_nat off)
       ∧ (GoString.len s ≤ off ∨ off + Z.of_nat n = GoString.len s →
          e = Some EOF)).
Proof.
  split; [|split].
  - intros f b off Hb Hoff. eexists _, (Some EOF).
    split; [by apply Bytes_ReadAt_eq|]. done.
  - done.
  - intros s b off Hoff. eexists _, (Some EOF).
    split; [by apply String_ReadAt_eq|]. done.
Qed.

Lemma ReadAt_end_of_data_witness :
  (∃ n e,
     Bytes.ReadAt (Bytes.ofList (Sample.bytesOf "hello")) (Slice.zeros 4) 3
     = Ret (take n (Sample.bytesOf "lo") ++ drop n (Slice.zeros 4),
            Z.of_nat n, e)
     ∧ n = 2%nat ∧ (5 ≤ 3 ∨ 3 + Z.of_nat n = 5 → e = Some EOF))
  ∧ (∃ n e,
     GoString.ReadAt "hello" (Slice.zeros 4) 5
     = (take n [] ++ drop n (Slice.zeros 4), Z.of_nat n, e)
     ∧ n = 0%nat ∧ (5 ≤ 5 ∨ 5 + Z.of_nat n = 5 → e = Some EOF)).
Proof.
  destruct ReadAt_end_of_data as (HB & _ & HS). split.
  - apply (HB (Bytes.ofList (Sample.bytesOf "hello")) (Slice.zeros 4) 3);
      [discriminate | lia].
  - apply (HS "hello" (Slice.zeros 4) 5). lia.
Defined.

(** C4 fails on the code. The buffer ["abcdefgh"] is shortened to
    ["abX"] by a write at offset 2, which leaves ["defgh"] in the backing
    array; the write of ["Y"] at offset 6, beyond the length 3 and below
    the capacity 8, reslices over those bytes: the gap reads ["def"], not
    zeros. *)
Theorem WriteAt_gap_not_zero (spareOnGrow : nat → nat → nat) :
  let f0 := Bytes.ofList (Sample.bytesOf "abcdefgh") in
  ∃ f1 f2,
    Bytes.WriteAt spareOnGrow f0 (Sample.bytesOf "X") 2 = Ret (f1, 1, nil_error)
    ∧ Slice.len f1 = 3
    ∧ Bytes.WriteAt spareOnGrow f1 (Sample.bytesOf "Y") 6
      = Ret (f2, 1, nil_error)
    ∧ Bytes.ReadAt f2 (Slice.zeros 4) 3
      = Ret (Sample.bytesOf "defY", 4, Some EOF).
Proof.
  eexists _, _. split; [reflexivity|].
  split; [reflexivity|]. split; reflexivity.
Qed.

(** C10: a write of [b] at a non-negative offset whose end is an
    [int64] returns [(len(b), nil)] and leaves the length [off+len(b)];
    below the old length, the visible bytes are the old ones before
    [off] followed by [b], so the old tail is gone. *)
Theorem WriteAt_sets_length (spareOnGrow : nat → nat → nat)
    (f : Bytes.t) (b : list byte) (off : Z) :
  0 ≤ off → off + Slice.Zlen b ≤ maxInt64 →
  ∃ f',
    Bytes.WriteAt spareOnGrow f b off = Ret (f', Slice.Zlen b, nil_error)
    ∧ Slice.len f' = off + Slice.Zlen b
    ∧ (off < Slice.len f →
       Slice.elems f' = take (Z.to_nat off) (Slice.elems f) ++ b).
Proof.
  intros H0 H1.
  pose proof (len_le_cap f) as Hlc.
  destruct (Z_lt_le_dec off (Slice.cap f)) as [Hlt|Hge].
  - eexists. split; [by apply WriteAt_below_cap|].
    rewrite cap_array in Hlt. unfold Slice.Zlen in Hlt.
    split.
    + unfold Slice.len. rewrite append_elems. cbn [Slice.elems].
      rewrite Zlen_app. unfold Slice.Zlen at 1.
      rewrite length_take. lia.
    + intros Hin. rewrite append_elems. cbn [Slice.elems].
      unfold Slice.array. rewrite take_app_le; [done|].
      unfold Slice.len, Slice.Zlen in Hin. lia.
  - eexists. split; [by apply WriteAt_beyond_cap|].
    split; [|lia].
    unfold Slice.len in *. cbn [Slice.elems].
    rewrite !Zlen_app. unfold Slice.Zlen in *.
    rewrite length_zeros. lia.
Qed.

Lemma WriteAt_sets_length_witness :
  ∃ f',
    Bytes.WriteAt Sample.exactGrowth
      (Bytes.ofList (Sample.bytesOf "abcdefgh")) (Sample.bytesOf "XY") 2
    = Ret (f', 2, nil_error)
    ∧ Slice.len f' = 2 + 2
    ∧ (2 < 8 → Slice.elems f' = Sample.bytesOf "ab" ++ Sample.bytesOf "XY").
Proof.
  apply (WriteAt_sets_length Sample.exactGrowth
           (Bytes.ofList (Sample.bytesOf "abcdefgh")) (Sample.bytesOf "XY") 2).
  - lia.
  - vm_compute. discriminate.
Defined.

(** C10, as stated for every non-negative offset, fails at the end of
    the [int64] range: the offset [2^63-1] is beyond the capacity, the
    size [off + len(b)] of the fresh array wraps to a negative number and
    [make] panics. *)
Lemma WriteAt_overflow_panics :
  0 ≤ maxInt64
  ∧ Bytes.WriteAt Sample.exactGrowth (Bytes.ofList (Sample.bytesOf "abc"))
      (Sample.bytesOf "X") maxInt64
    = Panic "makeslice: len out of range".
Proof. split; [vm_compute; discriminate | vm_compute; reflexivity]. Qed.

(** ** Node construction *)

(** [containsSep] holds exactly of the names in which the separator
    occurs. *)
Lemma containsSep_spec (s : string) :
  Path.containsSep s = true
  ↔ ∃ pre post, s = (pre ++ String Path.Separator post)%string.
Proof.
  induction s as [|c s IH]; simpl.
  - split; [done|]. intros (pre & post & H). by destruct pre.
  - destruct (decide (c = Path.Separator)) as [->|Hc].
    + split; [|done]. intros _. by exists EmptyString, s.
    + rewrite IH. split.
      * intros (pre & post & ->). by exists (String c pre), post.
      * intros (pre & post & H). destruct pre as [|c' pre]; simpl in H.
        -- by injection H as -> _.
        -- injection H as _ ->. by exists pre, post.
Qed.

(** [NewRO], [NewRW] and [NewDir] accept a name without separator and
    refuse one with a separator, the root name apart for [NewDir]. *)
Lemma NewRO_checks_name {D} (name : string) (mode : Z) (dev : D) :
  (Path.containsSep name = false →
   ∃ f, NewRO name mode dev = (Some f, nil_error) ∧ ro_name f = name)
  ∧ (Path.containsSep name = true →
     NewRO name mode dev = (None, Some ErrBadName)).
Proof. unfold NewRO. split; intros ->; eauto. Qed.

Lemma NewRW_checks_name {D} (name : string) (mode : Z) (dev : D) :
  (Path.containsSep name = false →
   ∃ f, NewRW name mode dev = (Some f, nil_error) ∧ rw_name f = name)
  ∧ (Path.containsSep name = true →
     NewRW name mode dev = (None, Some ErrBadName)).
Proof. unfold NewRW. split; intros ->; eauto. Qed.

Lemma NewDir_checks_name {R W X} (name : string) (mode : Z) :
  (Path.containsSep name = false →
   ∃ d, @NewDir R W X name mode = (Some d, nil_error) ∧ d_name d = name)
  ∧ (Path.containsSep name = true → name ≠ "/" →
     @NewDir R W X name mode = (None, Some ErrBadName))
  ∧ (∃ d, @NewDir R W X "/" mode = (Some d, nil_error) ∧ d_name d = "/").
Proof.
  unfold NewDir. split; [|split].
  - intros ->. rewrite andb_false_r. eauto.
  - intros -> Hne. rewrite bool_decide_eq_false_2 by done. done.
  - simpl. eauto.
Qed.

(** C1 fails on the code for the write-only file: [NewWO] has no check
    of the name, so a name with a separator gives a node of that name and
    no [ErrBadName]. *)
Theorem NewWO_accepts_separator {D} (mode : Z) (dev : D) :
  Path.containsSep "a/b" = true
  ∧ wo_name (NewWO "a/b" mode dev) = "a/b".
Proof. split; reflexivity. Qed.

(** ** Setattr *)

Lemma resize_truncate_fails {D}
    (truncate : D → Z → result (D * option error))
    (size : D → result (Z * option error)) dev req resp dev' e :
  hasFlag (fuse.reqValid req) fuse.SetattrSize = true →
  truncate dev (int64_of_uint64 (fuse.reqSize req)) = Ret (dev', Some e) →
  resize truncate size dev req resp = Ret (dev', resp, Some e).
Proof. intros Hf Ht. unfold resize. rewrite Hf, Ht. by run. Qed.

(** C8: when the request carries a size and the backend's [Truncate]
    fails, [Setattr] of a read-write or write-only file returns that
    error; the attribute record of the node and the response are as
    before, no other field of the request having been merged. *)
Theorem Setattr_truncate_failure :
  (∀ D (H : ReadWriter D) (f : RW D) req resp dev' e,
     hasFlag (fuse.reqValid req) fuse.SetattrSize = true →
     rw_Truncate (rw_dev f) (int64_of_uint64 (fuse.reqSize req))
     = Ret (dev', Some e) →
     ∃ f', RW_Setattr f req resp = Ret (f', resp, Some e)
           ∧ rw_attr f' = rw_attr f ∧ rw_name f' = rw_name f
           ∧ rw_fs f' = rw_fs f)
  ∧ (∀ D (H : Writer D) (f : WO D) req resp dev' e,
     hasFlag (fuse.reqValid req) fuse.SetattrSize = true →
     w_Truncate (wo_dev f) (int64_of_uint64 (fuse.reqSize req))
     = Ret (dev', Some e) →
     ∃ f', WO_Setattr f req resp = Ret (f', resp, Some e)
           ∧ wo_attr f' = wo_attr f ∧ wo_name f' = wo_name f
           ∧ wo_fs f' = wo_fs f).
Proof.
  split.
  - intros D H f req resp dev' e Hf Ht. unfold RW_Setattr.
    rewrite (resize_truncate_fails _ _ _ _ _ _ _ Hf Ht). run.
    eexists. split; [reflexivity|]. done.
  - intros D H f req resp dev' e Hf Ht. unfold WO_Setattr.
    rewrite (resize_truncate_fails _ _ _ _ _ _ _ Hf Ht). run.
    eexists. split; [reflexivity|]. done.
Qed.

Lemma Setattr_truncate_failure_witness :
  let dev := Bytes.ofList (Sample.bytesOf "abc") in
  let f := mkRW "foo" (attrOfMode 438) None dev in
  let g := mkWO "bar" (attrOfMode 146) None dev in
  let req := fuse.mkSetattrRequest 9 100 0 0 511 0 0 in
  let resp := fuse.mkSetattrResponse (fuse.mkFuseAttr 0 0 0 0 0 0 0 0) in
  (∃ f', @RW_Setattr _ (Bytes_ReadWriter Sample.exactGrowth) f req resp
         = Ret (f', resp, Some (Syscall EINVAL))
         ∧ rw_attr f' = rw_attr f ∧ rw_name f' = rw_name f
         ∧ rw_fs f' = rw_fs f)
  ∧ (∃ g', @WO_Setattr _ (Bytes_Writer Sample.exactGrowth) g req resp
           = Ret (g', resp, Some (Syscall EINVAL))
           ∧ wo_attr g' = wo_attr g ∧ wo_name g' = wo_name g
           ∧ wo_fs g' = wo_fs g).
Proof.
  intros dev f g req resp.
  destruct Setattr_truncate_failure as [HRW HWO]. split.
  - apply (HRW _ (Bytes_ReadWriter Sample.exactGrowth) f req resp dev
             (Syscall EINVAL)); reflexivity.
  - apply (HWO _ (Bytes_Writer Sample.exactGrowth) g req resp dev
             (Syscall EINVAL)); reflexivity.
Defined.

(** ** The tree *)

Section TreeFacts.

Context {R W X : Type}.

Local Abbreviation Node := (Node R W X).
Local Abbreviation Dir := (Dir R W X).
Local Abbreviation FileSystem := (FileSystem R W X).

Implicit Types (n m ch : Node) (d : Dir) (fs : FileSystem).

(** *** Induction on a tree *)

Lemma nodeSize_child d k ch :
  files d !! k = Some ch → (nodeSize ch < nodeSize (NDir d))%nat.
Proof.
  simpl. generalize (files d). intros fl. revert k ch.
  apply (map_fold_weak_ind
           (λ r (m : gmap string Node),
              ∀ k ch, m !! k = Some ch → (nodeSize ch < S r)%nat)).
  - intros k ch. by rewrite lookup_empty.
  - intros i x m r Hi IH k ch. rewrite lookup_insert.
    case_decide as Hk.
    + intros [= ->]. lia.
    + intros Hm. specialize (IH k ch Hm). lia.
Qed.

(** A property holds of every node when it holds of the files and of a
    directory whose children have it. *)
Lemma Node_tree_ind (P : Node → Prop) :
  (∀ d, (∀ k ch, files d !! k = Some ch → P ch) → P (NDir d)) →
  (∀ n, asDir n = None → P n) →
  ∀ n, P n.
Proof.
  intros Hdir Hfile n.
  remember (nodeSize n) as sz eqn:Hsz.
  revert n Hsz. induction sz as [sz IH] using lt_wf_ind.
  intros [d| | |] Hsz; try (by apply Hfile).
  apply Hdir. intros k ch Hk.
  apply (IH (nodeSize ch)); [|done].
  rewrite Hsz. by eapply nodeSize_child.
Qed.

Lemma withFiles_files d : withFiles d (files d) = d.
Proof. by destruct d. Qed.

Lemma files_withFiles d fl : files (withFiles d fl) = fl.
Proof. done. Qed.

(** *** The loop over the children *)

Section Visit.

Variable s : Node → nat → Node * nat.

(** Every child after the loop is what [s] made of the child at the
    same key. *)
Lemma visit_lookup (fl : gmap string Node) c k ch' :
  (map_fold (visit s) (∅, c) fl).1 !! k = Some ch' →
  ∃ ch ci, fl !! k = Some ch ∧ ch' = (s ch ci).1.
Proof.
  revert k ch'.
  apply (map_fold_weak_ind
           (λ r (m : gmap string Node),
              ∀ k ch', r.1 !! k = Some ch' →
                       ∃ ch ci, m !! k = Some ch ∧ ch' = (s ch ci).1)).
  - intros k ch'. simpl. by rewrite lookup_empty.
  - intros i x m [acc ci] Hi IH k ch'. unfold visit. simpl.
    destruct (s x ci) as [x' cj] eqn:Hs. simpl.
    rewrite !lookup_insert. case_decide as Hk.
    + intros [= <-]. exists x, ci. by rewrite Hs.
    + intros Hacc. by apply IH.
Qed.

(** The loop keeps the keys. *)
Lemma visit_lookup_inv (fl : gmap string Node) c k ch :
  fl !! k = Some ch →
  ∃ ci, (map_fold (visit s) (∅, c) fl).1 !! k = Some (s ch ci).1.
Proof.
  revert k ch.
  apply (map_fold_weak_ind
           (λ r (m : gmap string Node),
              ∀ k ch, m !! k = Some ch →
                      ∃ ci, r.1 !! k = Some (s ch ci).1)).
  - intros k ch. by rewrite lookup_empty.
  - intros i x m [acc ci] Hi IH k ch. unfold visit. simpl.
    destruct (s x ci) as [x' cj] eqn:Hs. simpl.
    rewrite !lookup_insert. case_decide as Hk.
    + intros [= <-]. exists ci. by rewrite Hs.
    + intros Hm. by apply IH.
Qed.

(** When [s] leaves every child and the count as they are, so does the
    loop. *)
Lemma visit_fixed (fl : gmap string Node) c :
  (∀ k ch ci, fl !! k = Some ch → s ch ci = (ch, ci)) →
  map_fold (visit s) (∅, c) fl = (fl, c).
Proof.
  apply (map_fold_weak_ind
           (λ r (m : gmap string Node),
              (∀ k ch ci, m !! k = Some ch → s ch ci = (ch, ci)) →
              r = (m, c))).
  - done.
  - intros i x m r Hi IH Hall.
    rewrite IH.
    2:{ intros k ch ci Hk. apply (Hall k). rewrite lookup_insert_ne; [done|].
        intros ->. congruence. }
    unfold visit. simpl. rewrite (Hall i x c); [done|].
    by rewrite lookup_insert_eq.
Qed.

End Visit.

(** *** [SetSys] and [sync] *)

Lemma SetSys_Sys n filesys clock c : Sys (SetSys n filesys clock c).1 = filesys.
Proof. unfold SetSys. destruct filesys, n; done. Qed.

Lemma SetSys_files d filesys clock c :
  ∃ d', (SetSys (NDir d) filesys clock c).1 = NDir d' ∧ files d' = files d
        ∧ d_fs d' = filesys ∧ d_name d' = d_name d.
Proof. unfold SetSys. destruct filesys; simpl; eauto. Qed.

(** [sync] on a directory, unfolded once. *)
Lemma sync_dir filesys clock d c :
  sync filesys clock (NDir d) c
  = let '(n1, c1) :=
      if bool_decide (d_fs d = filesys) then (NDir d, c)
      else SetSys (NDir d) filesys clock c in
    let '(fl, c2) :=
      map_fold (visit (sync filesys clock)) (∅, c1) (files d) in
    (setFiles n1 fl, c2).
Proof. reflexivity. Qed.

(** [sync] on a file. *)
Lemma sync_file filesys clock n c :
  asDir n = None →
  sync filesys clock n c
  = if bool_decide (Sys n = filesys) then (n, c)
    else SetSys n filesys clock c.
Proof.
  destruct n; [done| | |]; intros _; simpl;
    by destruct (if bool_decide _ then _ else _).
Qed.

(** The first step of [sync] on a directory gives a directory with the
    same children and the wanted back-reference. *)
Lemma sync_head filesys clock d c :
  ∃ d1 c1,
    (if bool_decide (d_fs d = filesys) then (NDir d, c)
     else SetSys (NDir d) filesys clock c) = (NDir d1, c1)
    ∧ files d1 = files d ∧ d_fs d1 = filesys ∧ d_name d1 = d_name d.
Proof.
  case_bool_decide as Hs.
  - by exists d, c.
  - destruct (SetSys_files d filesys clock c) as (d' & Hd' & Hf & Hs' & Hn).
    destruct (SetSys (NDir d) filesys clock c) as [n' c'] eqn:E.
    simpl in Hd'. subst n'. by exists d', c'.
Qed.

(** [sync] applied to a directory gives a directory of the same name
    with the wanted back-reference, whose children are the synced
    children of the old one. *)
Lemma sync_dir_shape filesys clock d c :
  ∃ d' c',
    sync filesys clock (NDir d) c = (NDir d', c')
    ∧ d_fs d' = filesys ∧ d_name d' = d_name d
    ∧ (∀ k ch', files d' !! k = Some ch' →
         ∃ ch ci, files d !! k = Some ch
                  ∧ ch' = (sync filesys clock ch ci).1).
Proof.
  rewrite sync_dir.
  destruct (sync_head filesys clock d c) as (d1 & c1 & -> & Hf & Hs & Hn).
  destruct (map_fold _ _ _) as [fl c2] eqn:Hfold.
  exists (withFiles d1 fl), c2. simpl.
  split; [done|]. split; [done|]. split; [done|].
  intros k ch' Hk.
  apply (visit_lookup (sync filesys clock) (files d) c1).
  by rewrite Hfold.
Qed.

(** After [sync], every node of the subtree has the back-reference of
    the file system that ran it. *)
Lemma sync_reachable filesys clock n :
  ∀ c m, reachable (sync filesys clock n c).1 m → Sys m = filesys.
Proof.
  induction n as [d IH|n Hn] using Node_tree_ind; intros c m Hm.
  - destruct (sync_dir_shape filesys clock d c)
      as (d' & c' & Heq & Hs & _ & Hch).
    rewrite Heq in Hm. simpl in Hm.
    inversion Hm as [|d0 k ch' m0 Hk Hreach]; subst.
    + done.
    + destruct (Hch k ch' Hk) as (ch & ci & Hin & ->).
      by eapply IH.
  - rewrite sync_file in Hm by done.
    assert (Hsys : Sys (if bool_decide (Sys n = filesys) then (n, c)
                        else SetSys n filesys clock c).1 = filesys).
    { case_bool_decide; [done|]. apply SetSys_Sys. }
    assert (Hfile : asDir (if bool_decide (Sys n = filesys) then (n, c)
                           else SetSys n filesys clock c).1 = None).
    { case_bool_decide; [done|]. unfold SetSys.
      destruct filesys, n; done. }
    destruct ((if bool_decide (Sys n = filesys) then (n, c)
               else SetSys n filesys clock c).1) as [d| | |];
      try done; inversion Hm; subst; done.
Qed.

(** On a subtree whose nodes all have the back-reference already,
    [sync] changes no node and does not read the clock. *)
Lemma sync_fixed filesys clock n :
  (∀ m, reachable n m → Sys m = filesys) →
  ∀ c, sync filesys clock n c = (n, c).
Proof.
  induction n as [d IH|n Hn] using Node_tree_ind; intros Hall c.
  - rewrite sync_dir.
    rewrite bool_decide_eq_true_2 by (apply (Hall (NDir d)); constructor).
    rewrite visit_fixed.
    + simpl. by rewrite withFiles_files.
    + intros k ch ci Hk. apply (IH k ch Hk).
      intros m Hm. apply Hall. by eapply reach_child.
  - rewrite sync_file by done.
    rewrite bool_decide_eq_true_2; [done|]. apply Hall. constructor.
Qed.

(** [allSys] decides that every node of the subtree has the
    back-reference. *)
Lemma allSys_children filesys (fl : gmap string Node) :
  map_fold (λ _ ch acc, allSys filesys ch && acc) true fl = true
  ↔ ∀ k ch, fl !! k = Some ch → allSys filesys ch = true.
Proof.
  apply (map_fold_weak_ind
           (λ r (m : gmap string Node),
              r = true ↔ ∀ k ch, m !! k = Some ch → allSys filesys ch = true)).
  - split; [|done]. intros _ k ch. by rewrite lookup_empty.
  - intros i x m r Hi IH. rewrite andb_true_iff, IH. split.
    + intros [Hx Hm] k ch. rewrite lookup_insert. case_decide.
      * by intros [= <-].
      * apply Hm.
    + intros Hall. split.
      * apply (Hall i). by rewrite lookup_insert_eq.
      * intros k ch Hk. apply (Hall k). rewrite lookup_insert_ne; [done|].
        intros ->. congruence.
Qed.

Lemma allSys_reachable filesys n :
  allSys filesys n = true ↔ ∀ m, reachable n m → Sys m = filesys.
Proof.
  induction n as [d IH|n Hn] using Node_tree_ind.
  - simpl. rewrite andb_true_iff, bool_decide_eq_true, allSys_children.
    split.
    + intros [Hd Hch] m Hm.
      inversion Hm as [|d0 k ch m0 Hk Hreach]; subst; [done|].
      apply (IH k ch Hk); [|done]. by eapply Hch.
    + intros Hall. split; [apply (Hall (NDir d)); constructor|].
      intros k ch Hk. apply (IH k ch Hk). intros m Hm.
      apply Hall. by eapply reach_child.
  - assert (Heq : allSys filesys n = bool_decide (Sys n = filesys)).
    { destruct n; [done| | |]; simpl; by rewrite andb_true_r. }
    rewrite Heq, bool_decide_eq_true. split.
    + intros Hs m Hm. destruct n; [done| | |]; inversion Hm; by subst.
    + intros Hall. apply Hall. constructor.
Qed.

End TreeFacts.

(** ** Path resolution *)

Section WalkFacts.

Context {R W X : Type}.

Local Abbreviation Node := (Node R W X).
Local Abbreviation Dir := (Dir R W X).

Implicit Types (n : Node) (d : Dir).

(** Walking through elements that name directories brings the loop to
    the directory they lead to, as long as elements remain. *)
Lemma walkLoop_descend op path len pre :
  ∀ d i rest d',
    descend d pre = Some d' → rest ≠ [] →
    (i + List.length pre + List.length rest = len)%nat →
    walkLoop op path len d i (pre ++ rest)
    = walkLoop op path len d' (i + List.length pre) rest.
Proof.
  induction pre as [|e pre IH]; intros d i rest d' Hd Hrest Hlen.
  - simpl in *. injection Hd as ->. by rewrite Nat.add_0_r.
  - simpl in Hd. simpl.
    destruct (files d !! e) as [[d1| | |]|] eqn:He; try done.
    assert (Hpos : (0 < List.length rest)%nat)
      by (destruct rest; [done|simpl; lia]).
    simpl in Hlen.
    replace (i =? len - 1)%nat with false
      by (symmetry; apply Nat.eqb_neq; lia).
    rewrite (IH d1 (S i) rest d') by (done || lia).
    f_equal. simpl. lia.
Qed.

Lemma walkPath_elements d op path :
  Path.pathElements path ≠ [] →
  walkPath d op path
  = walkLoop op path (List.length (Path.pathElements path)) d 0
      (Path.pathElements path).
Proof.
  intros Hne. unfold walkPath.
  destruct (Path.pathElements path); done.
Qed.

(** The loop of [walkPath] returns on every non-empty element list: the
    final [panic] is not reached. *)
Lemma walkLoop_returns op path es :
  ∀ d i, es ≠ [] →
    ∃ r, walkLoop op path (i + List.length es) d i es = Ret r.
Proof.
  induction es as [|e es IH]; intros d i Hne; [done|].
  simpl. destruct (files d !! e) as [n|].
  - destruct (i =? i + S (List.length es) - 1)%nat eqn:E; [eauto|].
    destruct n as [d1| | |]; eauto.
    destruct es as [|e' es'].
    { apply Nat.eqb_neq in E. simpl in E. lia. }
    replace (i + S (List.length (e' :: es')))%nat
      with (S i + List.length (e' :: es'))%nat by lia.
    by apply IH.
  - destruct (i <? i + S (List.length es) - 1)%nat; eauto.
Qed.

Lemma walkPath_returns d op path : ∃ r, walkPath d op path = Ret r.
Proof.
  unfold walkPath.
  destruct (Path.pathElements path) as [|e es] eqn:E; simpl; [eauto|].
  apply (walkLoop_returns op path (e :: es) d 0). done.
Qed.

(** C5: [walkPath] on the element sequence of any path. Without
    elements it returns the directory it was given and no error; when the
    elements before [e] lead through directories to [d'] and [e] is not
    in [d'], it returns [ENOENT], with no node if elements follow [e] and
    with [d'] if [e] is the last; when [e] names a node that is not a
    directory and elements follow, it returns [ENOTDIR] and no node. *)
Theorem walkPath_resolution d op path :
  (Path.pathElements path = [] →
   walkPath d op path = Ret (Some (NDir d), nil_error))
  ∧ (∀ pre e rest d',
       Path.pathElements path = pre ++ e :: rest → rest ≠ [] →
       descend d pre = Some d' → files d' !! e = None →
       walkPath d op path = Ret (None, Some (PathError op path ENOENT)))
  ∧ (∀ pre e rest d' n,
       Path.pathElements path = pre ++ e :: rest → rest ≠ [] →
       descend d pre = Some d' → files d' !! e = Some n → asDir n = None →
       walkPath d op path = Ret (None, Some (PathError op path ENOTDIR)))
  ∧ (∀ pre e d',
       Path.pathElements path = pre ++ [e] →
       descend d pre = Some d' → files d' !! e = None →
       walkPath d op path
       = Ret (Some (NDir d'), Some (PathError op path ENOENT))).
Proof.
  split; [|split; [|split]].
  - intros He. unfold walkPath. by rewrite He.
  - intros pre e rest d' He Hrest Hd Hmiss.
    rewrite walkPath_elements by (rewrite He; by destruct pre).
    rewrite He.
    rewrite (walkLoop_descend _ _ _ pre d 0%nat (e :: rest) d')
      by (done || (rewrite length_app; simpl; lia)).
    simpl. rewrite Hmiss.
    assert (Hpos : (0 < List.length rest)%nat)
      by (destruct rest; [done|simpl; lia]).
    rewrite length_app. simpl.
    replace (_ <? _)%nat with true
      by (symmetry; apply Nat.ltb_lt; lia).
    done.
  - intros pre e rest d' n He Hrest Hd Hn Hfile.
    rewrite walkPath_elements by (rewrite He; by destruct pre).
    rewrite He.
    rewrite (walkLoop_descend _ _ _ pre d 0%nat (e :: rest) d')
      by (done || (rewrite length_app; simpl; lia)).
    simpl. rewrite Hn.
    assert (Hpos : (0 < List.length rest)%nat)
      by (destruct rest; [done|simpl; lia]).
    rewrite length_app. simpl.
    replace (_ =? _)%nat with false
      by (symmetry; apply Nat.eqb_neq; lia).
    by destruct n.
  - intros pre e d' He Hd Hmiss.
    rewrite walkPath_elements by (rewrite He; by destruct pre).
    rewrite He.
    rewrite (walkLoop_descend _ _ _ pre d 0%nat [e] d')
      by (done || (rewrite length_app; simpl; lia)).
    simpl. rewrite Hmiss. rewrite length_app. simpl.
    replace (_ <? _)%nat with false
      by (symmetry; apply Nat.ltb_ge; lia).
    done.
Qed.

End WalkFacts.

Lemma walkPath_resolution_witness :
  walkPath (root Sample.sysfs) "open" "/"
  = Ret (Some (NDir (root Sample.sysfs)), nil_error)
  ∧ walkPath (root Sample.sysfs) "open" "/nothere/x"
    = Ret (None, Some (PathError "open" "/nothere/x" ENOENT))
  ∧ walkPath (root Sample.sysfs) "open" "/dev/foo/bar"
    = Ret (None, Some (PathError "open" "/dev/foo/bar" ENOTDIR))
  ∧ walkPath (root Sample.sysfs) "unbind" "/dev/nothere"
    = Ret (Some (NDir Sample.devDir),
           Some (PathError "unbind" "/dev/nothere" ENOENT)).
Proof.
  split; [|split; [|split]].
  - apply (walkPath_resolution (root Sample.sysfs) "open" "/").
    vm_compute. reflexivity.
  - apply (proj1 (proj2 (walkPath_resolution (root Sample.sysfs) "open"
                           "/nothere/x"))
             [] "nothere" ["x"] (root Sample.sysfs)).
    + vm_compute. reflexivity.
    + discriminate.
    + reflexivity.
    + vm_compute. reflexivity.
  - apply (proj1 (proj2 (proj2 (walkPath_resolution (root Sample.sysfs) "open"
                                  "/dev/foo/bar")))
             ["dev"] "foo" ["bar"] Sample.devDir Sample.fooFile).
    + vm_compute. reflexivity.
    + discriminate.
    + vm_compute. reflexivity.
    + vm_compute. reflexivity.
    + reflexivity.
  - apply (proj2 (proj2 (proj2 (walkPath_resolution (root Sample.sysfs)
                                  "unbind" "/dev/nothere")))
             ["dev"] "nothere" Sample.devDir).
    + vm_compute. reflexivity.
    + vm_compute. reflexivity.
    + vm_compute. reflexivity.
Defined.

(** ** Structural operations *)

Section FileSystemFacts.

Context {R W X : Type}.

Local Abbreviation Node := (Node R W X).
Local Abbreviation Dir := (Dir R W X).
Local Abbreviation FileSystem := (FileSystem R W X).

Implicit Types (n m : Node) (d : Dir) (fs : FileSystem).

(** [bind] panics whenever the walk ends, without error, on a node that
    is not a directory. *)
Lemma bind_panics_on_file fs dir n n0 :
  walkPath (root fs) "open" (Path.Clean dir) = Ret (Some n0, nil_error) →
  asDir n0 = None →
  bind fs dir n = Panic "interface conversion: Node is not *Dir".
Proof.
  intros Hw Hf. unfold bind. rewrite Hw. run. simpl.
  by destruct n0.
Qed.

(** [bind] panics whenever the walk fails with [ENOTDIR]: the error is
    not a not-exist error and the node is nil. *)
Lemma bind_panics_on_ENOTDIR fs dir n op path :
  walkPath (root fs) "open" (Path.Clean dir)
  = Ret (None, Some (PathError op path ENOTDIR)) →
  bind fs dir n = Panic "interface conversion: Node is not *Dir".
Proof. intros Hw. unfold bind. rewrite Hw. by run. Qed.

Lemma syncDir_sync filesys clock d c :
  sync filesys clock (NDir d) c
  = (NDir (syncDir filesys clock d c).1, (syncDir filesys clock d c).2).
Proof.
  unfold syncDir.
  destruct (sync_dir_shape filesys clock d c) as (d' & c' & -> & _).
  done.
Qed.

(** [Unbind] on the root path: the guard is skipped, the walk of the
    directory part ["/"] gives the root, and it is the child of the root
    with the empty name that is looked up. *)
Lemma Unbind_root fs :
  Unbind fs "/"
  = match files (root fs) !! "" with
    | None => Ret (fs, None, Some (PathError "unbind" "/" ENOENT))
    | Some node =>
        Ret (mkFS (addr fs)
               (withFiles (root fs) (delete "" (files (root fs))))
               (now fs) (sync None (now fs) node (ticks fs)).2,
             Some (sync None (now fs) node (ticks fs)).1, nil_error)
    end.
Proof.
  unfold Unbind.
  change (Path.Clean "/") with "/".
  change (String.length "/" =? 0)%nat with false.
  run.
  change (Path.Split "/") with ("/", "").
  cbv iota beta.
  change (walkPath (root fs) "unbind" "/")
    with (@Ret (option Node * option error) (Some (NDir (root fs)), nil_error)).
  run. cbv iota beta.
  destruct (files (root fs) !! "") as [node|]; [|done].
  change (Path.pathElements "/") with (@nil string).
  cbn [updateDirAt].
  by destruct (sync None (now fs) node (ticks fs)).
Qed.

(** C2 fails on the code: for every file system, [Unbind] of the root
    path reports [ENOENT] when the root has no child with the empty name,
    and otherwise succeeds and detaches that child; it never reports
    [EINVAL]. *)
Theorem Unbind_root_not_EINVAL fs :
  (files (root fs) !! "" = None ∧
   Unbind fs "/" = Ret (fs, None, Some (PathError "unbind" "/" ENOENT)))
  ∨ (∃ fs' node, Unbind fs "/" = Ret (fs', Some node, nil_error)).
Proof.
  rewrite Unbind_root.
  destruct (files (root fs) !! "") as [node|]; [right; eauto|left; done].
Qed.

(** C7: on a file system whose reachable nodes all have its address as
    back-reference, [Sync] changes nothing: no node is rebound, no time
    stamp is set and the clock is not read. So [Sync] after [Sync] is
    [Sync]. *)
Theorem Sync_idempotent :
  (∀ fs, (∀ n, reachable (NDir (root fs)) n → Sys n = Some (addr fs)) →
         FS_Sync fs = fs)
  ∧ (∀ fs, FS_Sync (FS_Sync fs) = FS_Sync fs).
Proof.
  assert (Hfix : ∀ fs,
            (∀ n, reachable (NDir (root fs)) n → Sys n = Some (addr fs)) →
            FS_Sync fs = fs).
  { intros fs Hall. unfold FS_Sync, syncDir.
    rewrite (sync_fixed _ (now fs) _ Hall). by destruct fs. }
  split; [done|].
  intros fs. apply Hfix.
  intros n Hn.
  replace (addr (FS_Sync fs)) with (addr fs)
    by (unfold FS_Sync; by destruct (syncDir _ _ _ _)).
  revert Hn. unfold FS_Sync.
  destruct (syncDir (Some (addr fs)) (now fs) (root fs) (ticks fs))
    as [r c] eqn:E.
  simpl. intros Hn.
  apply (sync_reachable (Some (addr fs)) (now fs) (NDir (root fs))
           (ticks fs)).
  rewrite syncDir_sync, E. done.
Qed.

End FileSystemFacts.

Lemma Sync_idempotent_witness : FS_Sync Sample.sysfs = Sample.sysfs.
Proof.
  apply (proj1 (@Sync_idempotent GoString.t Func.t Bytes.t) Sample.sysfs).
  apply allSys_reachable. vm_compute. reflexivity.
Defined.

(** C9 fails on the code: [Bind] panics at the type assertion when the
    directory path ends on the file [/dev/foo], and when it passes
    through that file. *)
Theorem Bind_panics (n : Sample.node) :
  Bind Sample.sysfs "/dev/foo" n
  = Panic "interface conversion: Node is not *Dir"
  ∧ Bind Sample.sysfs "/dev/foo/bar" n
    = Panic "interface conversion: Node is not *Dir".
Proof.
  split.
  - apply (bind_panics_on_file _ _ _ Sample.fooFile).
    + vm_compute. reflexivity.
    + reflexivity.
  - apply (bind_panics_on_ENOTDIR _ _ _ "open" "/dev/foo/bar").
    vm_compute. reflexivity.
Qed.

(** [Unbind] of the root path on the sample tree. *)
Example Unbind_root_sample :
  Unbind Sample.sysfs "/"
  = Ret (Sample.sysfs, None, Some (PathError "unbind" "/" ENOENT)).
Proof. vm_compute. reflexivity. Qed.


(** * Further properties of the code *)

(** ** The growable buffer: truncation and writes *)

Section BytesMore.

Import Slice.

Variable spareOnGrow : nat → nat → nat.

(** The shape of the buffer after a write at a non-negative offset: the
    new bytes come after [off] bytes, which are the start of the backing
    array when the offset is below the capacity and else the old visible
    bytes followed by zeros. *)
Lemma WriteAt_shape (f : Bytes.t) b off :
  0 ≤ off → off + Zlen b ≤ maxInt64 →
  ∃ pre rest,
    Bytes.WriteAt spareOnGrow f b off = Ret (mk (pre ++ b) rest, Zlen b, nil_error)
    ∧ List.length pre = Z.to_nat off
    ∧ pre = if off <? cap f then take (Z.to_nat off) (array f)
            else elems f ++ zeros (Z.to_nat off - List.length (elems f)).
Proof.
  intros H0 H1. pose proof (len_le_cap f) as Hlc.
  destruct (off <? cap f) eqn:E.
  - apply Z.ltb_lt in E. rewrite WriteAt_below_cap by done.
    exists (take (Z.to_nat off) (array f)),
           (room (append spareOnGrow
                    (mk (take (Z.to_nat off) (array f))
                        (drop (Z.to_nat off) (array f))) b)).
    split.
    + unfold append. cbn [elems room]. by destruct (_ <=? _)%nat.
    + split; [|done]. rewrite length_take.
      rewrite cap_array in E. unfold Zlen in E. lia.
  - apply Z.ltb_ge in E. rewrite WriteAt_beyond_cap by done.
    eexists (elems f ++ zeros (Z.to_nat off - List.length (elems f))), [].
    split; [by rewrite <- app_assoc|]. split; [|done].
    rewrite length_app, length_zeros. unfold len, Zlen in Hlc. lia.
Qed.

(** [Truncate] as one expression: the slice expression in it never
    panics. *)
Lemma Truncate_eq (f : Bytes.t) (n : Z) :
  Bytes.Truncate f n
  = if (n <? 0) || (len f <? n) then Ret (f, Some (Syscall EINVAL))
    else Ret (mk (take (Z.to_nat n) (elems f))
                 (zeros (List.length (array f) - Z.to_nat n)),
              nil_error).
Proof.
  unfold Bytes.Truncate.
  destruct (n <? 0) eqn:E0; [done|].
  destruct (len f <? n) eqn:E1; [done|]. simpl.
  apply Z.ltb_ge in E0, E1. unfold len, Zlen in E1.
  set (k := Z.to_nat n).
  assert (Hk : (k ≤ List.length (elems f))%nat) by (unfold k; lia).
  rewrite upto_ok.
  2:{ unfold cap, Zlen. cbn [elems room]. rewrite length_app, length_take,
        length_zeros, length_array. simpl. lia. }
  run.
  assert (Harr : ∀ l, array (mk l []) = l)
    by (intros l; unfold array; cbn [elems room]; apply app_nil_r).
  rewrite !Harr. fold k.
  assert (Hlen : List.length (take k (array f)) = k).
  { rewrite length_take, length_array. lia. }
  rewrite take_app_length' by done.
  rewrite drop_app_length' by done.
  unfold array. rewrite take_app_le by done. done.
Qed.

(** X1: [Truncate] refuses a negative length and a length beyond the
    current one with [EINVAL], leaving the buffer as it is; otherwise it
    does not panic, keeps the first [n] bytes, keeps the capacity, and
    leaves every byte of the backing array beyond them zero. *)
Theorem Truncate_result (f : Bytes.t) (n : Z) :
  (n < 0 ∨ len f < n → Bytes.Truncate f n = Ret (f, Some (Syscall EINVAL)))
  ∧ (0 ≤ n ≤ len f →
     ∃ f', Bytes.Truncate f n = Ret (f', nil_error)
           ∧ elems f' = take (Z.to_nat n) (elems f)
           ∧ len f' = n ∧ cap f' = cap f
           ∧ Forall (λ x, x = x00) (room f')).
Proof.
  rewrite Truncate_eq. split.
  - intros [Hn|Hn].
    + by destruct (n <? 0) eqn:E; [|lia].
    + destruct (len f <? n) eqn:E; [|lia]. by rewrite orb_true_r.
  - intros [H0 H1].
    destruct (n <? 0) eqn:E0; [lia|]. destruct (len f <? n) eqn:E1; [lia|].
    simpl. eexists. split; [reflexivity|]. cbn [elems room].
    unfold len, cap, Zlen in *. cbn [elems room].
    rewrite length_take, length_zeros, length_array.
    repeat split; try lia.
    unfold zeros. apply Forall_forall. intros x Hx.
    by apply list_elem_of_In, repeat_spec in Hx.
Qed.

(** X2: after a successful [Truncate] to [n], a write at an offset at
    or beyond [n] leaves the first [n] old bytes, zeros up to the offset,
    and the new bytes: nothing of the discarded tail comes back. *)
Theorem Truncate_WriteAt_zero_gap (f : Bytes.t) (n : Z) b off :
  0 ≤ n ≤ len f → n ≤ off → off + Zlen b ≤ maxInt64 →
  ∃ f1 f2,
    Bytes.Truncate f n = Ret (f1, nil_error)
    ∧ Bytes.WriteAt spareOnGrow f1 b off = Ret (f2, Zlen b, nil_error)
    ∧ elems f2 = take (Z.to_nat n) (elems f)
                 ++ zeros (Z.to_nat off - Z.to_nat n) ++ b.
Proof.
  intros [Hn0 Hn1] Hoff Hmax.
  rewrite Truncate_eq.
  destruct (n <? 0) eqn:E0; [lia|].
  destruct (len f <? n) eqn:E1; [lia|]. simpl.
  unfold len, Zlen in Hn1.
  set (k := Z.to_nat n). set (C := List.length (array f)).
  assert (Hk : (k ≤ List.length (elems f))%nat) by (unfold k; lia).
  assert (HkC : (k ≤ C)%nat) by (unfold C; rewrite length_array; lia).
  set (f1 := mk (take k (elems f)) (zeros (C - k))).
  assert (Hlen1 : List.length (elems f1) = k)
    by (unfold f1; cbn [elems]; rewrite length_take; lia).
  destruct (WriteAt_shape f1 b off) as (pre & rest & HW & Hpre & Hshape);
    [lia|done|].
  exists f1, (mk (pre ++ b) rest). split; [done|]. split; [done|].
  cbn [elems]. rewrite app_assoc. f_equal. rewrite Hshape.
  destruct (off <? cap f1) eqn:E.
  - apply Z.ltb_lt in E. unfold array, f1. cbn [elems room].
    rewrite take_app_ge by (rewrite length_take; lia).
    rewrite length_take, take_zeros.
    replace (Nat.min k (List.length (elems f))) with k by lia.
    f_equal. f_equal.
    unfold cap, f1, Zlen in E. cbn [elems room] in E.
    rewrite length_take, length_zeros in E. lia.
  - rewrite Hlen1. done.
Qed.

(** X3: a write at an offset at or beyond the current length keeps all
    the old bytes; between them and the new bytes lie [off - len] bytes,
    which are zero when the offset reaches the capacity and are the
    bytes of the spare capacity otherwise. At [off = len] the write
    appends. *)
Theorem WriteAt_past_end (f : Bytes.t) b off :
  len f ≤ off → off + Zlen b ≤ maxInt64 →
  ∃ f' gap,
    Bytes.WriteAt spareOnGrow f b off = Ret (f', Zlen b, nil_error)
    ∧ elems f' = elems f ++ gap ++ b
    ∧ Zlen gap = off - len f
    ∧ gap = (if off <? cap f
             then take (Z.to_nat off - List.length (elems f)) (room f)
             else zeros (Z.to_nat off - List.length (elems f))).
Proof.
  intros Hoff Hmax. pose proof (Zlen_nonneg (elems f)) as He.
  unfold len in Hoff.
  destruct (WriteAt_shape f b off) as (pre & rest & HW & Hpre & Hshape);
    [lia|done|].
  destruct (off <? cap f) eqn:E.
  - apply Z.ltb_lt in E.
    exists (mk (pre ++ b) rest),
           (take (Z.to_nat off - List.length (elems f)) (room f)).
    split; [done|]. cbn [elems]. split; [|split; [|done]].
    + rewrite app_assoc. f_equal. rewrite Hshape. unfold array.
      rewrite take_app_ge by (unfold Zlen in *; lia). done.
    + unfold len, Zlen in *. rewrite length_take.
      unfold cap, Zlen in E. lia.
  - exists (mk (pre ++ b) rest),
           (zeros (Z.to_nat off - List.length (elems f))).
    split; [done|]. cbn [elems]. split; [|split; [|done]].
    + rewrite app_assoc. by rewrite Hshape.
    + unfold len, Zlen in *. rewrite length_zeros. lia.
Qed.

(** X4: what a write stores is what a read at the same offset returns:
    after [WriteAt(b, off)], [ReadAt] into a destination as long as [b]
    returns exactly [b]. *)
Theorem WriteAt_ReadAt (f : Bytes.t) b off :
  0 ≤ off → off + Zlen b ≤ maxInt64 → b ≠ [] →
  ∃ f',
    Bytes.WriteAt spareOnGrow f b off = Ret (f', Zlen b, nil_error)
    ∧ ∀ buf, List.length buf = List.length b →
        Bytes.ReadAt f' buf off = Ret (b, Zlen b, Some EOF).
Proof.
  intros H0 Hmax Hb.
  destruct (WriteAt_shape f b off) as (pre & rest & HW & Hpre & _);
    [done|done|].
  exists (mk (pre ++ b) rest). split; [done|].
  intros buf Hbuf.
  rewrite Bytes_ReadAt_eq; [|by destruct buf, b|done].
  cbn [elems]. rewrite length_app, Hpre, Hbuf.
  replace (Nat.min (List.length b)
             (Z.to_nat off + List.length b - Z.to_nat off))
    with (List.length b) by lia.
  rewrite <- Hpre, drop_app_length, firstn_all.
  rewrite <- Hbuf, drop_all, app_nil_r. by rewrite Hbuf.
Qed.

(** X5: on a negative offset [Bytes.WriteAt] panics, and so does
    [Bytes.ReadAt] with a non-empty destination, in the slice
    expression; [String.ReadAt] returns [EINVAL] and copies nothing. *)
Theorem negative_offset (f : Bytes.t) (s : GoString.t) b off :
  off < 0 →
  Bytes.WriteAt spareOnGrow f b off = Panic "slice bounds out of range"
  ∧ (b ≠ [] → Bytes.ReadAt f b off = Panic "slice bounds out of range")
  ∧ GoString.ReadAt s b off = (b, 0, Some (Syscall EINVAL)).
Proof.
  intros Hoff. pose proof (len_le_cap f) as Hlc.
  pose proof (Zlen_nonneg (elems f)) as He. unfold len in Hlc.
  split; [|split].
  - unfold Bytes.WriteAt.
    destruct (cap f <=? off) eqn:E; [lia|]. run.
    unfold upto. by destruct (off <? 0) eqn:E0; [|lia].
  - intros Hb. unfold Bytes.ReadAt.
    destruct (Z.eqb (Zlen b) 0) eqn:E0.
    { apply Z.eqb_eq in E0. destruct b; [done|]. unfold Zlen in E0.
      simpl in E0. lia. }
    destruct (len f <=? off) eqn:E1; [unfold len in E1; lia|].
    unfold from. by destruct (off <? 0) eqn:E2; [|lia].
  - unfold GoString.ReadAt. by destruct (off <? 0) eqn:E; [|lia].
Qed.

End BytesMore.

Lemma Truncate_WriteAt_zero_gap_witness :
  ∃ f1 f2,
    Bytes.Truncate (Bytes.ofList (Sample.bytesOf "abcdefgh")) 3
    = Ret (f1, nil_error)
    ∧ Bytes.WriteAt Sample.exactGrowth f1 (Sample.bytesOf "Y") 6
      = Ret (f2, 1, nil_error)
    ∧ Slice.elems f2
      = Sample.bytesOf "abc" ++ Slice.zeros 3 ++ Sample.bytesOf "Y".
Proof.
  apply (Truncate_WriteAt_zero_gap Sample.exactGrowth
           (Bytes.ofList (Sample.bytesOf "abcdefgh")) 3 (Sample.bytesOf "Y") 6).
  - split; [lia | vm_compute; discriminate].
  - lia.
  - vm_compute. discriminate.
Defined.

Lemma WriteAt_past_end_witness :
  ∃ f' gap,
    Bytes.WriteAt Sample.exactGrowth (Bytes.ofList (Sample.bytesOf "abc"))
      (Sample.bytesOf "XY") 5
    = Ret (f', 2, nil_error)
    ∧ Slice.elems f' = Sample.bytesOf "abc" ++ gap ++ Sample.bytesOf "XY"
    ∧ Slice.Zlen gap = 5 - 3
    ∧ gap = Slice.zeros 2.
Proof.
  apply (WriteAt_past_end Sample.exactGrowth
           (Bytes.ofList (Sample.bytesOf "abc")) (Sample.bytesOf "XY") 5).
  - vm_compute. discriminate.
  - vm_compute. discriminate.
Defined.

Lemma WriteAt_ReadAt_witness :
  ∃ f',
    Bytes.WriteAt Sample.exactGrowth
      (Bytes.ofList (Sample.bytesOf "abcdefgh")) (Sample.bytesOf "XY") 2
    = Ret (f', 2, nil_error)
    ∧ Bytes.ReadAt f' (Slice.zeros 2) 2
      = Ret (Sample.bytesOf "XY", 2, Some EOF).
Proof.
  destruct (WriteAt_ReadAt Sample.exactGrowth
              (Bytes.ofList (Sample.bytesOf "abcdefgh"))
              (Sample.bytesOf "XY") 2) as (f' & HW & HR).
  - lia.
  - vm_compute. discriminate.
  - discriminate.
  - exists f'. split; [exact HW|]. apply HR. reflexivity.
Defined.

Lemma negative_offset_witness :
  Bytes.WriteAt Sample.exactGrowth (Bytes.ofList (Sample.bytesOf "abc"))
    (Sample.bytesOf "X") (-1)
  = Panic "slice bounds out of range"
  ∧ (Sample.bytesOf "X" ≠ [] →
     Bytes.ReadAt (Bytes.ofList (Sample.bytesOf "abc")) (Sample.bytesOf "X")
       (-1)
     = Panic "slice bounds out of range")
  ∧ GoString.ReadAt "abc" (Sample.bytesOf "X") (-1)
    = (Sample.bytesOf "X", 0, Some (Syscall EINVAL)).
Proof.
  apply (negative_offset Sample.exactGrowth
           (Bytes.ofList (Sample.bytesOf "abc")) "abc" (Sample.bytesOf "X")
           (-1)).
  lia.
Defined.

(** ** Attributes and modes *)

(** [setAttr] as one expression. *)
Lemma setAttr_eq (dst : attr) (resp : fuse.SetattrResponse)
    (src : fuse.SetattrRequest) :
  let v := fuse.reqValid src in
  let old := fuse.respAttr resp in
  setAttr dst resp src
  = (mkAttr
       (if hasFlag v fuse.SetattrMode then fuse.reqMode src else mode dst)
       (if hasFlag v fuse.SetattrUid then fuse.reqUid src else uid dst)
       (if hasFlag v fuse.SetattrGid then fuse.reqGid src else gid dst)
       (if hasFlag v fuse.SetattrAtime then fuse.reqAtime src else atime dst)
       (if hasFlag v fuse.SetattrMtime then fuse.reqMtime src else mtime dst)
       (ctime dst),
     fuse.mkSetattrResponse
       (fuse.mkFuseAttr (fuse.Inode old) (fuse.Size old)
          (if hasFlag v fuse.SetattrAtime then fuse.reqAtime src
           else fuse.Atime old)
          (if hasFlag v fuse.SetattrMtime then fuse.reqMtime src
           else fuse.Mtime old)
          (fuse.Ctime old)
          (if hasFlag v fuse.SetattrMode then fuse.reqMode src
           else fuse.Mode old)
          (if hasFlag v fuse.SetattrUid then fuse.reqUid src
           else fuse.Uid old)
          (if hasFlag v fuse.SetattrGid then fuse.reqGid src
           else fuse.Gid old))).
Proof.
  destruct dst, resp as [[]]. unfold setAttr.
  destruct (hasFlag (fuse.reqValid src) fuse.SetattrMode),
    (hasFlag (fuse.reqValid src) fuse.SetattrUid),
    (hasFlag (fuse.reqValid src) fuse.SetattrGid),
    (hasFlag (fuse.reqValid src) fuse.SetattrAtime),
    (hasFlag (fuse.reqValid src) fuse.SetattrMtime); reflexivity.
Qed.

(** X6: [setAttr] changes a field of the node only when the request
    flags it, and then to the value of the request; it never changes the
    change time. The response gets the same values in the flagged fields,
    and its inode, size and change time stay as they were. *)
Theorem setAttr_fields (dst : attr) (resp : fuse.SetattrResponse)
    (src : fuse.SetattrRequest) :
  let v := fuse.reqValid src in
  let a := (setAttr dst resp src).1 in
  let r := fuse.respAttr (setAttr dst resp src).2 in
  let old := fuse.respAttr resp in
  ctime a = ctime dst
  ∧ mode a = (if hasFlag v fuse.SetattrMode then fuse.reqMode src else mode dst)
  ∧ uid a = (if hasFlag v fuse.SetattrUid then fuse.reqUid src else uid dst)
  ∧ gid a = (if hasFlag v fuse.SetattrGid then fuse.reqGid src else gid dst)
  ∧ atime a
    = (if hasFlag v fuse.SetattrAtime then fuse.reqAtime src else atime dst)
  ∧ mtime a
    = (if hasFlag v fuse.SetattrMtime then fuse.reqMtime src else mtime dst)
  ∧ fuse.Mode r
    = (if hasFlag v fuse.SetattrMode then fuse.reqMode src else fuse.Mode old)
  ∧ fuse.Uid r
    = (if hasFlag v fuse.SetattrUid then fuse.reqUid src else fuse.Uid old)
  ∧ fuse.Gid r
    = (if hasFlag v fuse.SetattrGid then fuse.reqGid src else fuse.Gid old)
  ∧ fuse.Atime r
    = (if hasFlag v fuse.SetattrAtime then fuse.reqAtime src
       else fuse.Atime old)
  ∧ fuse.Mtime r
    = (if hasFlag v fuse.SetattrMtime then fuse.reqMtime src
       else fuse.Mtime old)
  ∧ fuse.Inode r = fuse.Inode old ∧ fuse.Size r = fuse.Size old
  ∧ fuse.Ctime r = fuse.Ctime old.
Proof. rewrite setAttr_eq. cbn. repeat split. Qed.

Lemma land_ldiff_same a b : Z.land (Z.ldiff a b) b = 0.
Proof.
  apply Z.bits_inj'. intros i Hi.
  rewrite Z.land_spec, Z.ldiff_spec, Z.bits_0.
  by destruct (Z.testbit a i), (Z.testbit b i).
Qed.

Lemma ldiff_keeps_other_bits a b i :
  Z.testbit b i = false → Z.testbit (Z.ldiff a b) i = Z.testbit a i.
Proof.
  intros Hb. rewrite Z.ldiff_spec, Hb. apply andb_true_r.
Qed.

(** X7: the mode the constructors store. A directory has the directory
    bit and none of the symlink, pipe and socket bits; a read-only file
    has neither the directory bit nor a write permission bit, a
    write-only file neither the directory bit nor a read permission bit,
    a read-write file no directory bit; every other bit is the one
    given. *)
Theorem constructor_modes {R W X D : Type} (name : string) (m : Z) (dev : D) :
  (∀ d, @NewDir R W X name m = (Some d, nil_error) →
     Z.land (mode (d_attr d)) ModeDir = ModeDir
     ∧ Z.land (mode (d_attr d))
         (Z.lor ModeSymlink (Z.lor ModeNamedPipe ModeSocket)) = 0
     ∧ ∀ i, Z.testbit
              (Z.lor ModeDir
                 (Z.lor ModeSymlink (Z.lor ModeNamedPipe ModeSocket))) i
            = false →
            Z.testbit (mode (d_attr d)) i = Z.testbit m i)
  ∧ (∀ f, NewRO name m dev = (Some f, nil_error) →
       Z.land (mode (ro_attr f)) (Z.lor ModeDir perm_w) = 0
       ∧ ∀ i, Z.testbit (Z.lor ModeDir perm_w) i = false →
              Z.testbit (mode (ro_attr f)) i = Z.testbit m i)
  ∧ (Z.land (mode (wo_attr (NewWO name m dev))) (Z.lor ModeDir perm_r) = 0
     ∧ ∀ i, Z.testbit (Z.lor ModeDir perm_r) i = false →
            Z.testbit (mode (wo_attr (NewWO name m dev))) i = Z.testbit m i)
  ∧ (∀ f, NewRW name m dev = (Some f, nil_error) →
       Z.land (mode (rw_attr f)) ModeDir = 0
       ∧ ∀ i, Z.testbit ModeDir i = false →
              Z.testbit (mode (rw_attr f)) i = Z.testbit m i).
Proof.
  split; [|split; [|split]].
  - intros d Hd. unfold NewDir in Hd.
    destruct (_ && _); [done|]. injection Hd as <-. cbn [d_attr mode attrOfMode].
    set (S := Z.lor ModeSymlink (Z.lor ModeNamedPipe ModeSocket)).
    split; [|split].
    + apply Z.bits_inj'. intros i Hi.
      rewrite Z.land_spec, Z.lor_spec.
      destruct (Z.testbit ModeDir i); [done|apply andb_false_r].
    + rewrite Z.land_lor_distr_l. unfold andNot.
      rewrite land_ldiff_same. reflexivity.
    + intros i Hb. rewrite Z.lor_spec in Hb.
      apply orb_false_iff in Hb as [HD HS].
      rewrite Z.lor_spec, HD. simpl. unfold andNot.
      by apply ldiff_keeps_other_bits.
  - intros f Hf. unfold NewRO in Hf.
    destruct (Path.containsSep name); [done|]. injection Hf as <-.
    cbn [ro_attr mode attrOfMode]. unfold andNot.
    split; [apply land_ldiff_same|]. intros i. apply ldiff_keeps_other_bits.
  - unfold NewWO. cbn [wo_attr mode attrOfMode]. unfold andNot.
    split; [apply land_ldiff_same|]. intros i. apply ldiff_keeps_other_bits.
  - intros f Hf. unfold NewRW in Hf.
    destruct (Path.containsSep name); [done|]. injection Hf as <-.
    cbn [rw_attr mode attrOfMode]. unfold andNot.
    split; [apply land_ldiff_same|]. intros i. apply ldiff_keeps_other_bits.
Qed.

Lemma constructor_modes_witness :
  (∀ d, @NewDir GoString.t Func.t Bytes.t "sys" 511 = (Some d, nil_error) →
     Z.land (mode (d_attr d)) ModeDir = ModeDir
     ∧ Z.land (mode (d_attr d))
         (Z.lor ModeSymlink (Z.lor ModeNamedPipe ModeSocket)) = 0
     ∧ ∀ i, Z.testbit
              (Z.lor ModeDir
                 (Z.lor ModeSymlink (Z.lor ModeNamedPipe ModeSocket))) i
            = false →
            Z.testbit (mode (d_attr d)) i = Z.testbit 511 i)
  ∧ Z.land (mode (ro_attr (mkRO "ev" (attrOfMode 365) None "data")))
      (Z.lor ModeDir perm_w) = 0.
Proof.
  destruct (@constructor_modes GoString.t Func.t Bytes.t GoString.t
              "sys" 511 "data") as (HD & _).
  destruct (@constructor_modes GoString.t Func.t Bytes.t GoString.t
              "ev" 511 "data") as (_ & HRO & _).
  split; [exact HD|].
  apply (HRO (mkRO "ev" (attrOfMode 365) None "data")). reflexivity.
Defined.

(** ** Path resolution, continued *)

Section WalkMore.

Context {R W X : Type}.

Local Abbreviation Node := (Node R W X).
Local Abbreviation Dir := (Dir R W X).

Implicit Types (n : Node) (d : Dir).

Lemma descend_snoc d pre e :
  descend d (pre ++ [e])
  = match descend d pre with
    | Some d' => match files d' !! e with
                 | Some (NDir d'') => Some d''
                 | _ => None
                 end
    | None => None
    end.
Proof.
  revert d. induction pre as [|e0 pre IH]; intros d; simpl.
  - by destruct (files d !! e) as [[]|].
  - destruct (files d !! e0) as [[d1| | |]|]; done.
Qed.

(** The walk that succeeds. *)
Lemma walkPath_last d op path pre e d' n :
  Path.pathElements path = pre ++ [e] →
  descend d pre = Some d' → files d' !! e = Some n →
  walkPath d op path = Ret (Some n, nil_error).
Proof.
  intros He Hd Hn.
  rewrite walkPath_elements by (rewrite He; by destruct pre).
  rewrite He.
  rewrite (walkLoop_descend _ _ _ pre d 0%nat [e] d')
    by (done || (rewrite length_app; simpl; lia)).
  simpl. rewrite Hn. rewrite length_app. simpl.
  replace (_ =? _)%nat with true by (symmetry; apply Nat.eqb_eq; lia).
  done.
Qed.

(** A walk that ends without error has followed its elements: the
    elements before the last lead through directories to the parent of
    the node returned. *)
Lemma walkLoop_found_inv op path len es :
  ∀ d i n,
    (i + List.length es = len)%nat →
    walkLoop op path len d i es = Ret (Some n, nil_error) →
    ∃ pre e d', es = pre ++ [e] ∧ descend d pre = Some d'
                ∧ files d' !! e = Some n.
Proof.
  induction es as [|e es IH]; intros d i n Hlen Hw; [done|].
  simpl in Hw, Hlen.
  destruct (files d !! e) as [n0|] eqn:He.
  - destruct (i =? len - 1)%nat eqn:Ei.
    + injection Hw as ->. apply Nat.eqb_eq in Ei.
      assert (es = []) as -> by (destruct es; [done|simpl in *; lia]).
      by exists [], e, d.
    + destruct n0 as [d1| | |]; try done.
      destruct (IH d1 (S i) n) as (pre & e' & d' & -> & Hd & Hn);
        [lia|done|].
      exists (e :: pre), e', d'. split; [done|]. simpl. by rewrite He.
  - by destruct (i <? len - 1)%nat.
Qed.

Lemma walkPath_dir_inv d op path d0 :
  walkPath d op path = Ret (Some (NDir d0), nil_error) →
  descend d (Path.pathElements path) = Some d0.
Proof.
  unfold walkPath.
  destruct (Path.pathElements path) as [|e es] eqn:E.
  - simpl. by intros [= ->].
  - change (List.length (e :: es) =? 0)%nat with false. cbv iota.
    intros Hw.
    destruct (walkLoop_found_inv op path (List.length (e :: es)) (e :: es)
                d 0%nat (NDir d0))
      as (pre & e' & d' & Hes & Hd & Hn); [done|done|].
    rewrite Hes, descend_snoc, Hd, Hn. done.
Qed.

Lemma walkPath_descend d op path d0 :
  descend d (Path.pathElements path) = Some d0 →
  walkPath d op path = Ret (Some (NDir d0), nil_error).
Proof.
  intros Hd.
  destruct (Path.pathElements path) as [|e es] eqn:E using rev_ind.
  - unfold walkPath. rewrite E. simpl in *. by injection Hd as ->.
  - clear IHes. rewrite descend_snoc in Hd.
    destruct (descend d es) as [d'|] eqn:Hd'; [|done].
    destruct (files d' !! e) as [[d''| | |]|] eqn:He; try done.
    injection Hd as ->.
    by eapply walkPath_last.
Qed.

(** X8: [walkPath] returns a node and no error exactly when the path
    has no element and the node is the directory given, or the elements
    before the last lead through directories to a directory in which the
    last element names the node. *)
Theorem walkPath_found d op path n :
  walkPath d op path = Ret (Some n, nil_error)
  ↔ (Path.pathElements path = [] ∧ n = NDir d)
    ∨ (∃ pre e d',
         Path.pathElements path = pre ++ [e]
         ∧ descend d pre = Some d' ∧ files d' !! e = Some n).
Proof.
  split.
  - unfold walkPath.
    destruct (Path.pathElements path) as [|e es] eqn:E.
    + simpl. intros [= <-]. by left.
    + change (List.length (e :: es) =? 0)%nat with false. cbv iota.
      intros Hw. right.
      by apply (walkLoop_found_inv op path (List.length (e :: es)) (e :: es)
                  d 0%nat n).
  - intros [[He ->]|(pre & e & d' & He & Hd & Hn)].
    + unfold walkPath. by rewrite He.
    + by eapply walkPath_last.
Qed.

Lemma walkLoop_outcomes op path es :
  ∀ d i, es ≠ [] →
    ∃ on oe,
      walkLoop op path (i + List.length es) d i es = Ret (on, oe)
      ∧ ((oe = None ∧ is_Some on)
         ∨ (oe = Some (PathError op path ENOENT)
            ∧ (on = None ∨ ∃ d', on = Some (NDir d')))
         ∨ (oe = Some (PathError op path ENOTDIR) ∧ on = None)).
Proof.
  induction es as [|e es IH]; intros d i Hne; [done|].
  simpl. destruct (files d !! e) as [n|].
  - destruct (i =? i + S (List.length es) - 1)%nat eqn:Ei.
    + eexists _, _. split; [done|]. left. eauto.
    + destruct n as [d2| | |];
        try (eexists _, _; split; [done|]; right; right; done).
      destruct es as [|e' es'].
      { apply Nat.eqb_neq in Ei. simpl in Ei. lia. }
      replace (i + S (List.length (e' :: es')))%nat
        with (S i + List.length (e' :: es'))%nat by lia.
      by apply IH.
  - destruct (i <? i + S (List.length es) - 1)%nat; eexists _, _;
      (split; [done|]); right; left; eauto.
Qed.

(** X9: [walkPath] never panics, and its outcomes are four: a node
    and no error; no node and [ENOENT]; a directory and [ENOENT]; no node
    and [ENOTDIR]. The error names the operation and the path given. *)
Theorem walkPath_outcomes d op path :
  ∃ on oe,
    walkPath d op path = Ret (on, oe)
    ∧ ((oe = None ∧ is_Some on)
       ∨ (oe = Some (PathError op path ENOENT)
          ∧ (on = None ∨ ∃ d', on = Some (NDir d')))
       ∨ (oe = Some (PathError op path ENOTDIR) ∧ on = None)).
Proof.
  unfold walkPath.
  destruct (Path.pathElements path) as [|e0 es0] eqn:E.
  { simpl. eexists _, _. split; [done|]. left. eauto. }
  change (List.length (e0 :: es0) =? 0)%nat with false. cbv iota.
  by apply (walkLoop_outcomes op path (e0 :: es0) d 0%nat).
Qed.

End WalkMore.

Lemma walkPath_found_witness :
  walkPath (root Sample.sysfs) "invalidate" "/dev/foo"
  = Ret (Some Sample.fooFile, nil_error).
Proof.
  apply (walkPath_found (root Sample.sysfs) "invalidate" "/dev/foo"
           Sample.fooFile).
  right. exists ["dev"], "foo", Sample.devDir.
  split; [vm_compute; reflexivity|].
  split; vm_compute; reflexivity.
Defined.

(** ** Composition and synchronisation, continued *)

Section TreeMore.

Context {R W X : Type}.

Local Abbreviation Node := (Node R W X).
Local Abbreviation Dir := (Dir R W X).
Local Abbreviation FileSystem := (FileSystem R W X).

Implicit Types (n m ch : Node) (d : Dir) (fs : FileSystem).

(** X10: after [With(nodes...)] the child under a name is the last of
    the given nodes of that name, and the child the directory had when
    no given node has the name; the name, attributes and back-reference
    of the directory are untouched. *)
Theorem Dir_With_lookup d (nodes : list Node) (k : string) :
  files (Dir_With d nodes) !! k
  = match last (filter (λ n, Name n = k) nodes) with
    | Some n => Some n
    | None => files d !! k
    end
  ∧ d_name (Dir_With d nodes) = d_name d
  ∧ d_attr (Dir_With d nodes) = d_attr d
  ∧ d_fs (Dir_With d nodes) = d_fs d.
Proof.
  unfold Dir_With.
  induction nodes as [|n nodes IH] using rev_ind; [done|].
  rewrite fold_left_app. simpl.
  destruct IH as (IHf & IHn & IHa & IHs).
  split; [|done].
  rewrite lookup_insert, filter_app, filter_cons, filter_nil.
  case_decide as Hk.
  - by rewrite last_snoc.
  - by rewrite app_nil_r.
Qed.

(** *** What [sync] keeps *)

Lemma SetSys_keeps n filesys clock c :
  let n' := (SetSys n filesys clock c).1 in
  Name n' = Name n
  ∧ mode (nodeAttr n') = mode (nodeAttr n)
  ∧ uid (nodeAttr n') = uid (nodeAttr n)
  ∧ gid (nodeAttr n') = gid (nodeAttr n)
  ∧ (∀ k, child n' k = child n k).
Proof. unfold SetSys. destruct filesys, n; done. Qed.

Lemma sync_Name filesys clock n c :
  Name (sync filesys clock n c).1 = Name n.
Proof.
  destruct n as [d| | |].
  - destruct (sync_dir_shape filesys clock d c) as (d' & c' & -> & _ & Hn & _).
    done.
  - rewrite sync_file by done. case_bool_decide; [done|].
    apply SetSys_keeps.
  - rewrite sync_file by done. case_bool_decide; [done|].
    apply SetSys_keeps.
  - rewrite sync_file by done. case_bool_decide; [done|].
    apply SetSys_keeps.
Qed.

(** X11: [sync] changes back-references and time stamps only: the
    node it returns has the name, mode, owner and group of the node it
    was given, is a file with the same backend when that was a file, and
    is a directory with the same child names when that was a
    directory. *)
Theorem sync_keeps filesys clock n c :
  let n' := (sync filesys clock n c).1 in
  Name n' = Name n
  ∧ mode (nodeAttr n') = mode (nodeAttr n)
  ∧ uid (nodeAttr n') = uid (nodeAttr n)
  ∧ gid (nodeAttr n') = gid (nodeAttr n)
  ∧ (∀ k, is_Some (child n' k) ↔ is_Some (child n k))
  ∧ (∀ f, n = NRO f → ∃ f', n' = NRO f' ∧ ro_dev f' = ro_dev f)
  ∧ (∀ f, n = NWO f → ∃ f', n' = NWO f' ∧ wo_dev f' = wo_dev f)
  ∧ (∀ f, n = NRW f → ∃ f', n' = NRW f' ∧ rw_dev f' = rw_dev f)
  ∧ (∀ d, n = NDir d → ∃ d', n' = NDir d').
Proof.
  destruct n as [d|f|f|f].
  - cbv zeta. rewrite sync_dir.
    destruct (if bool_decide (d_fs d = filesys) then (NDir d, c)
              else SetSys (NDir d) filesys clock c) as [n1 c1] eqn:E1.
    assert (H1 : ∃ d1, n1 = NDir d1 ∧ d_name d1 = d_name d
                       ∧ mode (d_attr d1) = mode (d_attr d)
                       ∧ uid (d_attr d1) = uid (d_attr d)
                       ∧ gid (d_attr d1) = gid (d_attr d)).
    { revert E1. case_bool_decide.
      - intros [= <- <-]. by exists d.
      - unfold SetSys. destruct filesys; intros [= <- <-]; eexists; done. }
    destruct H1 as (d1 & -> & Hn & Hm & Hu & Hg).
    destruct (map_fold _ _ _) as [fl c2] eqn:Hfold. simpl.
    repeat split; try done.
    + intros [ch' Hk].
      destruct (visit_lookup (sync filesys clock) (files d) c1 k ch')
        as (ch & ci & Hin & _); [by rewrite Hfold|]. eauto.
    + intros [ch Hk].
      destruct (visit_lookup_inv (sync filesys clock) (files d) c1 k ch Hk)
        as [ci Hin].
      rewrite Hfold in Hin. eauto.
    + eauto.
  - cbv zeta. rewrite sync_file by done.
    case_bool_decide; [repeat split; (done || intros ? [= <-]; eauto)|].
    unfold SetSys. destruct filesys; simpl;
      repeat split; (done || intros ? [= <-]; eauto).
  - cbv zeta. rewrite sync_file by done.
    case_bool_decide; [repeat split; (done || intros ? [= <-]; eauto)|].
    unfold SetSys. destruct filesys; simpl;
      repeat split; (done || intros ? [= <-]; eauto).
  - cbv zeta. rewrite sync_file by done.
    case_bool_decide; [repeat split; (done || intros ? [= <-]; eauto)|].
    unfold SetSys. destruct filesys; simpl;
      repeat split; (done || intros ? [= <-]; eauto).
Qed.

(** *** How often [sync] reads the clock *)

Lemma visit_count (s : Node → nat → Node * nat) (w : Node → nat)
    (fl : gmap string Node) c :
  (∀ k ch ci, fl !! k = Some ch → (s ch ci).2 = (ci + w ch)%nat) →
  (map_fold (visit s) (∅, c) fl).2
  = (c + map_fold (λ _ ch acc, (w ch + acc)%nat) 0%nat fl)%nat.
Proof.
  induction fl as [|i x m Hi Hfirst IH] using map_first_key_ind; intros Hall.
  - rewrite !map_fold_empty. simpl. lia.
  - rewrite !(map_fold_insert_first_key _ _ m i x) by done.
    unfold visit at 1.
    destruct (s x _) as [x' cj] eqn:Hs. simpl.
    assert (Hx : (s x (map_fold (visit s) (∅, c) m).2).2
                 = ((map_fold (visit s) (∅, c) m).2 + w x)%nat).
    { apply (Hall i). by rewrite lookup_insert_eq. }
    rewrite Hs in Hx. simpl in Hx. rewrite Hx, IH; [lia|].
    intros k ch ci Hk. apply (Hall k). rewrite lookup_insert_ne; [done|].
    intros ->. congruence.
Qed.

Lemma sync_count_nil clock n c : (sync None clock n c).2 = c.
Proof.
  revert c. induction n as [d IH|n Hn] using Node_tree_ind; intros c.
  - rewrite sync_dir.
    destruct (if bool_decide (d_fs d = None) then (NDir d, c)
              else SetSys (NDir d) None clock c) as [n1 c1] eqn:E1.
    assert (Hc1 : c1 = c)
      by (revert E1; case_bool_decide; by intros [= <- <-]).
    destruct (map_fold (visit _) _ _) as [fl c2] eqn:Hfold.
    cbn [snd].
    assert (Hc2 : c2 = (map_fold (visit (sync None clock)) (∅, c1)
                          (files d)).2) by (by rewrite Hfold).
    rewrite Hc2, (visit_count _ (λ _, 0%nat)).
    2:{ intros k ch ci Hk. rewrite (IH k ch Hk). lia. }
    assert (Hz : ∀ m : gmap string Node,
              map_fold (λ _ (_ : Node) acc, (0 + acc)%nat) 0%nat m = 0%nat).
    { intros m. induction m as [|i x m Hi Hfirst IHm]
                  using map_first_key_ind.
      - by rewrite map_fold_empty.
      - rewrite map_fold_insert_first_key by done. by rewrite IHm. }
    rewrite Hz. lia.
  - rewrite sync_file by done. by case_bool_decide.
Qed.

(** X12: [sync] for a file system reads its clock once for each node
    of the subtree whose back-reference was not the file system's, and
    [sync] for the nil file system, as [Unbind] runs it, never reads the
    clock. *)
Theorem sync_clock_reads clock n c :
  (∀ a, (sync (Some a) clock n c).2 = (c + stale (Some a) n)%nat)
  ∧ (sync None clock n c).2 = c.
Proof.
  split; [|apply sync_count_nil].
  intros a.
  revert c.
  induction n as [d IH|n Hn] using Node_tree_ind; intros c.
  - rewrite sync_dir.
    destruct (if bool_decide (d_fs d = Some a) then (NDir d, c)
              else SetSys (NDir d) (Some a) clock c) as [n1 c1] eqn:E1.
    destruct (map_fold (visit _) _ _) as [fl c2] eqn:Hfold.
    cbn [snd].
    assert (Hc2 : c2 = (map_fold (visit (sync (Some a) clock)) (∅, c1)
                          (files d)).2) by (by rewrite Hfold).
    rewrite Hc2, (visit_count _ (stale (Some a))).
    2:{ intros k ch ci Hk. by apply (IH k ch Hk). }
    simpl. revert E1. case_bool_decide; intros [= <- <-]; lia.
  - rewrite sync_file by done.
    assert (Hst : stale (Some a) n
                  = if bool_decide (Sys n = Some a) then 0%nat else 1%nat).
    { destruct n; [done| | |]; simpl; lia. }
    rewrite Hst. case_bool_decide; simpl; lia.
Qed.

End TreeMore.

(** ** Structural operations, continued *)

Section FileSystemMore.

Context {R W X : Type}.

Local Abbreviation Node := (Node R W X).
Local Abbreviation Dir := (Dir R W X).
Local Abbreviation FileSystem := (FileSystem R W X).

Implicit Types (n m ch : Node) (d : Dir) (fs : FileSystem).

(** Replacing the directory at the end of a walk: the same walk then
    leads to the replacement. *)
Lemma updateDirAt_descend (g : Dir → nat → Dir * nat) es :
  ∀ d c d0,
    descend d es = Some d0 →
    descend (updateDirAt es g d c).1 es = Some (g d0 c).1
    ∧ (updateDirAt es g d c).2 = (g d0 c).2.
Proof.
  induction es as [|e es IH]; intros d c d0 Hd; simpl in *.
  - by injection Hd as ->.
  - destruct (files d !! e) as [[d1| | |]|] eqn:He; try done.
    destruct (IH d1 c d0 Hd) as [IH1 IH2].
    destruct (updateDirAt es g d1 c) as [d2 c2]. simpl in *.
    by rewrite lookup_insert_eq.
Qed.

(** The children of a directory after [sync]. *)
Lemma syncDir_children filesys clock d c k :
  (∀ ch, files d !! k = Some ch →
     ∃ ci, files (syncDir filesys clock d c).1 !! k
           = Some (sync filesys clock ch ci).1)
  ∧ (is_Some (files (syncDir filesys clock d c).1 !! k)
     ↔ is_Some (files d !! k)).
Proof.
  assert (Hs := syncDir_sync filesys clock d c).
  rewrite sync_dir in Hs.
  destruct (sync_head filesys clock d c) as (d1 & c1 & E1 & Hf & _).
  rewrite E1 in Hs.
  destruct (map_fold _ _ _) as [fl c2] eqn:Hfold.
  simpl in Hs. injection Hs as Hd Hc. rewrite <- Hd. cbn [files withFiles].
  assert (Hfl : fl = (map_fold (visit (sync filesys clock)) (∅, c1)
                        (files d)).1) by (by rewrite Hfold).
  split.
  - intros ch Hk. rewrite Hfl. by apply visit_lookup_inv.
  - split.
    + intros [ch' Hk]. rewrite Hfl in Hk.
      destruct (visit_lookup _ _ _ _ _ Hk) as (ch & ci & Hin & _). eauto.
    + intros [ch Hk].
      destruct (visit_lookup_inv (sync filesys clock) (files d) c1 k ch Hk)
        as [ci Hin].
      rewrite Hfl. eauto.
Qed.

(** [Bind] on a path that leads to a directory. *)
Lemma bind_descend fs dir n d0 :
  descend (root fs) (Path.pathElements (Path.Clean dir)) = Some d0 →
  ∃ fs' d1 n',
    Bind fs dir n = Ret (fs', nil_error)
    ∧ addr fs' = addr fs
    ∧ descend (root fs') (Path.pathElements (Path.Clean dir)) = Some d1
    ∧ files d1 !! Name n = Some n' ∧ Name n' = Name n
    ∧ (∀ k, is_Some (files d1 !! k) ↔ k = Name n ∨ is_Some (files d0 !! k))
    ∧ NDir d1
      = (sync (Some (addr fs)) (now fs)
           (NDir (withFiles d0 (<[Name n:=n]> (files d0)))) (ticks fs)).1.
Proof.
  intros Hd. unfold Bind, bind.
  rewrite (walkPath_descend _ _ _ _ Hd). run. cbn [IsNotExist].
  set (g := λ (dx : Dir) (c0 : nat),
              syncDir (Some (addr fs)) (now fs)
                (withFiles dx (<[Name n:=n]> (files dx))) c0).
  destruct (updateDirAt_descend g _ (root fs) (ticks fs) d0 Hd) as [Hd1 Hc].
  fold g. destruct (updateDirAt _ g (root fs) (ticks fs)) as [r c] eqn:E.
  simpl in Hd1, Hc.
  set (dn := withFiles d0 (<[Name n:=n]> (files d0))) in *.
  destruct (syncDir_children (Some (addr fs)) (now fs) dn (ticks fs) (Name n))
    as [Hch _].
  destruct (Hch n) as [ci Hn']; [unfold dn; simpl; by rewrite lookup_insert_eq|].
  eexists _, (g d0 (ticks fs)).1, _.
  split; [done|]. split; [done|]. split; [exact Hd1|].
  split; [exact Hn'|]. split; [apply sync_Name|]. split.
  - intros k.
    destruct (syncDir_children (Some (addr fs)) (now fs) dn (ticks fs) k)
      as [_ Hiff].
    unfold g. fold dn. rewrite Hiff. unfold dn. rewrite files_withFiles.
    rewrite lookup_insert. case_decide as Hk.
    + subst k. split; [by left|eauto].
    + split; [by right|]. intros [->|]; done.
  - unfold g. fold dn. by rewrite syncDir_sync.
Qed.

(** X13: when the directory path leads to a directory, [Bind] returns
    no error; afterwards the same path leads to a directory that holds a
    node of the name of the bound node under that name, has the children
    it had under the other names, and has the file system as
    back-reference in every node below it. *)
Theorem Bind_attaches fs dir n d0 :
  descend (root fs) (Path.pathElements (Path.Clean dir)) = Some d0 →
  ∃ fs' d1 n',
    Bind fs dir n = Ret (fs', nil_error)
    ∧ addr fs' = addr fs
    ∧ descend (root fs') (Path.pathElements (Path.Clean dir)) = Some d1
    ∧ files d1 !! Name n = Some n' ∧ Name n' = Name n
    ∧ (∀ k, is_Some (files d1 !! k) ↔ k = Name n ∨ is_Some (files d0 !! k))
    ∧ (∀ m, reachable (NDir d1) m → Sys m = Some (addr fs)).
Proof.
  intros Hd.
  destruct (bind_descend fs dir n d0 Hd)
    as (fs' & d1 & n' & HB & Haddr & Hd1 & Hn' & HN & Hkeys & Hshape).
  exists fs', d1, n'. repeat (split; [done|]).
  intros m Hm. rewrite Hshape in Hm.
  by eapply sync_reachable.
Qed.

(** X14: an error from [Bind] or from [Unbind] leaves the file system
    as it was, and [Unbind] then returns no node. The error of [Bind] is
    [ENOENT] for the cleaned path. *)
Theorem errors_change_nothing :
  (∀ fs dir n fs' e,
     Bind fs dir n = Ret (fs', Some e) →
     fs' = fs ∧ e = PathError "open" (Path.Clean dir) ENOENT)
  ∧ (∀ fs path fs' on e,
       Unbind fs path = Ret (fs', on, Some e) → fs' = fs ∧ on = None).
Proof.
  split.
  - intros fs dir n fs' e. unfold Bind, bind.
    destruct (walkPath (root fs) "open" (Path.Clean dir)) as [[on oe]|];
      [|done].
    run. destruct (IsNotExist oe); [by intros [= <- <-]|].
    destruct on as [[d| | |]|]; try done.
    by destruct (updateDirAt _ _ _ _).
  - intros fs path fs' on e. unfold Unbind.
    destruct (if (String.length (Path.Clean path) =? 0)%nat then _ else _)
      as [[|]|msg]; [by intros [= <- <-]| |done].
    run. destruct (Path.Split (Path.Clean path)) as [dir name].
    destruct (walkPath (root fs) "unbind" dir) as [[n0 [e0|]]|msg];
      [by intros [= <- <-]| |done].
    run. destruct n0 as [[d| | |]|]; try done.
    destruct (files d !! name) as [node0|]; [|by intros [= <- <-]].
    destruct (updateDirAt _ _ _ _) as [r c0].
    by destruct (sync None (now fs) node0 (ticks fs)).
Qed.

(** X15: a successful [Unbind] has found the directory part of the
    cleaned path and, in it, a child under the last name; the node
    returned is that child after [sync] for the nil file system and has
    its name; afterwards the same walk leads to the directory without
    that child and with its other children, and the clock has not been
    read. *)
Theorem Unbind_detaches fs path fs' node :
  Unbind fs path = Ret (fs', Some node, nil_error) →
  let dir := (Path.Split (Path.Clean path)).1 in
  let name := (Path.Split (Path.Clean path)).2 in
  ∃ d0 node0,
    descend (root fs) (Path.pathElements dir) = Some d0
    ∧ files d0 !! name = Some node0
    ∧ node = (sync None (now fs) node0 (ticks fs)).1
    ∧ Name node = Name node0
    ∧ descend (root fs') (Path.pathElements dir)
      = Some (withFiles d0 (delete name (files d0)))
    ∧ ticks fs' = ticks fs ∧ addr fs' = addr fs.
Proof.
  unfold Unbind.
  destruct (if (String.length (Path.Clean path) =? 0)%nat then _ else _)
    as [[|]|msg]; [done| |done].
  run. destruct (Path.Split (Path.Clean path)) as [dir name]. cbn [fst snd].
  destruct (walkPath (root fs) "unbind" dir) as [[n0 [e0|]]|msg] eqn:Hw;
    [done| |done].
  run. destruct n0 as [[d| | |]|]; try done.
  destruct (files d !! name) as [node0|] eqn:Hname; [|done].
  apply walkPath_dir_inv in Hw.
  set (g := λ (dx : Dir) (c0 : nat),
              (withFiles dx (delete name (files dx)), c0)).
  destruct (updateDirAt_descend g _ (root fs) (ticks fs) d Hw) as [Hd1 _].
  fold g. destruct (updateDirAt _ g (root fs) (ticks fs)) as [r c0].
  simpl in Hd1.
  pose proof (sync_count_nil (now fs) node0 (ticks fs)) as Hc.
  pose proof (sync_Name None (now fs) node0 (ticks fs)) as HN.
  destruct (sync None (now fs) node0 (ticks fs)) as [node' c] eqn:Es.
  simpl in Hc, HN. intros [= <- <-]. subst c.
  exists d, node0. rewrite Es. done.
Qed.

Lemma Clean_nonempty (p : string) : Path.Clean p ≠ "".
Proof.
  unfold Path.Clean. destruct (Path.rooted p); [done|].
  by case_decide.
Qed.

(** X16: [Bind] followed by [Unbind]. When the directory path leads to
    a directory, and the path to unbind splits into a directory part with
    the same elements and the name of the node, [Bind] and then [Unbind]
    both succeed; the node returned has the name of the node bound, its
    subtree has the nil back-reference, and the directory is left without
    a child of that name and with the children it had under the other
    names. *)
Theorem Bind_Unbind fs dir path n d0 :
  descend (root fs) (Path.pathElements (Path.Clean dir)) = Some d0 →
  Path.pathElements (Path.Split (Path.Clean path)).1
  = Path.pathElements (Path.Clean dir) →
  (Path.Split (Path.Clean path)).2 = Name n →
  ∃ fs1 fs2 node d2,
    Bind fs dir n = Ret (fs1, nil_error)
    ∧ Unbind fs1 path = Ret (fs2, Some node, nil_error)
    ∧ Name node = Name n
    ∧ (∀ m, reachable node m → Sys m = None)
    ∧ descend (root fs2) (Path.pathElements (Path.Clean dir)) = Some d2
    ∧ files d2 !! Name n = None
    ∧ (∀ k, k ≠ Name n →
            (is_Some (files d2 !! k) ↔ is_Some (files d0 !! k))).
Proof.
  intros Hd Hel Hname.
  destruct (bind_descend fs dir n d0 Hd)
    as (fs1 & d1 & n' & HB & Haddr & Hd1 & Hn' & HN & Hkeys & _).
  exists fs1. unfold Unbind.
  destruct (String.length (Path.Clean path) =? 0)%nat eqn:El.
  { apply Nat.eqb_eq in El. pose proof (Clean_nonempty path) as Hne.
    by destruct (Path.Clean path). }
  run. destruct (Path.Split (Path.Clean path)) as [dirp name] eqn:Es.
  cbn [fst snd] in Hel, Hname. subst name.
  assert (Hw : walkPath (root fs1) "unbind" dirp
               = Ret (Some (NDir d1), nil_error)).
  { apply walkPath_descend. by rewrite Hel. }
  rewrite Hw. run. cbv iota beta. rewrite Hn'.
  set (g := λ (dx : Dir) (c0 : nat),
              (withFiles dx (delete (Name n) (files dx)), c0)).
  assert (Hd1' : descend (root fs1) (Path.pathElements dirp) = Some d1)
    by (by rewrite Hel).
  destruct (updateDirAt_descend g _ (root fs1) (ticks fs1) d1 Hd1')
    as [Hd2 _].
  destruct (updateDirAt _ g (root fs1) (ticks fs1)) as [r c0].
  simpl in Hd2. rewrite Hel in Hd2.
  pose proof (sync_Name None (now fs1) n' (ticks fs1)) as HN'.
  pose proof (sync_reachable None (now fs1) n' (ticks fs1)) as Hreach.
  destruct (sync None (now fs1) n' (ticks fs1)) as [node c] eqn:Esync.
  simpl in HN', Hreach.
  exists (mkFS (addr fs1) r (now fs1) c), node,
         (withFiles d1 (delete (Name n) (files d1))).
  split; [done|]. split; [done|]. split; [congruence|].
  split; [exact Hreach|]. split; [exact Hd2|].
  rewrite files_withFiles. split; [apply lookup_delete_eq|].
  intros k Hk. rewrite lookup_delete_ne by done.
  rewrite Hkeys. split; [|by right]. by intros [->|].
Qed.

End FileSystemMore.

Lemma Bind_attaches_witness :
  ∃ fs' d1 n',
    Bind Sample.sysfs "/dev/input" Sample.extra = Ret (fs', nil_error)
    ∧ addr fs' = addr Sample.sysfs
    ∧ descend (root fs') (Path.pathElements (Path.Clean "/dev/input"))
      = Some d1
    ∧ files d1 !! Name Sample.extra = Some n'
    ∧ Name n' = Name Sample.extra
    ∧ (∀ k, is_Some (files d1 !! k)
            ↔ k = Name Sample.extra
              ∨ is_Some (files (default (root Sample.sysfs)
                                  (descend (root Sample.sysfs)
                                     ["dev"; "input"])) !! k))
    ∧ (∀ m, reachable (NDir d1) m → Sys m = Some (addr Sample.sysfs)).
Proof.
  apply (Bind_attaches Sample.sysfs "/dev/input" Sample.extra).
  vm_compute. reflexivity.
Defined.

Lemma errors_change_nothing_witness :
  (Sample.sysfs = Sample.sysfs
   ∧ PathError "open" "/dev/nothere" ENOENT
     = PathError "open" (Path.Clean "/dev/nothere") ENOENT)
  ∧ (Sample.sysfs = Sample.sysfs ∧ @None Sample.node = None).
Proof.
  destruct (@errors_change_nothing GoString.t Func.t Bytes.t) as [HB HU].
  split.
  - apply (HB Sample.sysfs "/dev/nothere" Sample.extra Sample.sysfs
             (PathError "open" "/dev/nothere" ENOENT)).
    vm_compute. reflexivity.
  - apply (HU Sample.sysfs "/dev/noexist" Sample.sysfs None
             (PathError "unbind" "/dev/noexist" ENOENT)).
    vm_compute. reflexivity.
Defined.

Lemma Unbind_detaches_witness :
  ∃ d0 node0,
    descend (root Sample.sysfs) ["dev"] = Some d0
    ∧ files d0 !! "input" = Some node0
    ∧ Sample.detached = (sync None Sample.clock node0 (ticks Sample.sysfs)).1
    ∧ Name Sample.detached = Name node0
    ∧ descend (root Sample.afterUnbind) ["dev"]
      = Some (withFiles d0 (delete "input" (files d0)))
    ∧ ticks Sample.afterUnbind = ticks Sample.sysfs
    ∧ addr Sample.afterUnbind = addr Sample.sysfs.
Proof.
  apply (Unbind_detaches Sample.sysfs "/dev/input" Sample.afterUnbind
           Sample.detached).
  vm_compute. reflexivity.
Defined.

(** ** File nodes on the growable buffer *)

Section NodeIO.

Import Slice.

Variable spareOnGrow : nat → nat → nat.

Local Abbreviation BRW := (Bytes_ReadWriter spareOnGrow).

Lemma wrap64_uint (z : Z) : 0 ≤ z ≤ maxInt64 → int64_of_uint64 z = z.
Proof. intros Hz. apply wrap64_small. unfold maxInt64 in *. lia. Qed.

Lemma uint64_small (z : Z) : 0 ≤ z ≤ maxInt64 → uint64_of_int64 z = z.
Proof.
  intros Hz. unfold uint64_of_int64. apply Z.mod_small.
  unfold maxInt64 in *. lia.
Qed.

(** X17: [Setattr] with a size on a read-write file over [Bytes]. A
    size up to the current length cuts the buffer to it, reports it in
    the response and merges the other fields of the request; a larger
    size is refused with [EINVAL] and nothing changes: the file cannot
    be grown through [Setattr]. *)
Theorem Setattr_size_Bytes (f : RW Bytes.t) req resp :
  hasFlag (fuse.reqValid req) fuse.SetattrSize = true →
  0 ≤ fuse.reqSize req ≤ maxInt64 → len (rw_dev f) ≤ maxInt64 →
  (fuse.reqSize req ≤ len (rw_dev f) →
   ∃ f' resp',
     @RW_Setattr _ BRW f req resp = Ret (f', resp', nil_error)
     ∧ elems (rw_dev f') = take (Z.to_nat (fuse.reqSize req)) (elems (rw_dev f))
     ∧ fuse.Size (fuse.respAttr resp') = fuse.reqSize req
     ∧ rw_attr f' = (setAttr (rw_attr f) resp req).1
     ∧ rw_name f' = rw_name f ∧ rw_fs f' = rw_fs f)
  ∧ (len (rw_dev f) < fuse.reqSize req →
     @RW_Setattr _ BRW f req resp = Ret (f, resp, Some (Syscall EINVAL))).
Proof.
  intros Hflag Hsize Hlen.
  unfold RW_Setattr, resize. rewrite Hflag. cbn [rw_Truncate rw_Size BRW].
  rewrite wrap64_uint by done. rewrite Truncate_eq.
  destruct (fuse.reqSize req <? 0) eqn:E0; [lia|]. cbn [orb].
  split.
  - intros Hle. destruct (len (rw_dev f) <? fuse.reqSize req) eqn:E1; [lia|].
    run. cbn [Bytes.Size]. run.
    rewrite !setAttr_eq. cbn [fst snd].
    eexists _, _. split; [reflexivity|]. cbn.
    split; [done|]. split; [|done].
    match goal with |- uint64_of_int64 ?l = _ =>
      assert (Hl : l = fuse.reqSize req)
        by (unfold len, Zlen in *; cbn [elems]; rewrite length_take; lia)
    end.
    rewrite Hl. by apply uint64_small.
  - intros Hgt. destruct (len (rw_dev f) <? fuse.reqSize req) eqn:E1; [|lia].
    run. by destruct f.
Qed.

(** What [readInto] gives on [Bytes]: the bytes from the offset on, at
    most [req.Size] of them, and no error. *)
Lemma readInto_Bytes (dev : Bytes.t) req (data : Slice.t) :
  0 ≤ fuse.readOffset req → 0 ≤ fuse.readSize req ≤ cap data →
  ∃ rest,
    readInto (@rw_ReadAt _ BRW) dev req data
    = Ret (dev,
           mk (take (Z.to_nat (fuse.readSize req))
                 (drop (Z.to_nat (fuse.readOffset req)) (elems dev))) rest,
           nil_error).
Proof.
  intros Hoff [Hs0 Hs1]. unfold readInto.
  rewrite upto_ok by done. run. cbn [elems room rw_ReadAt BRW].
  set (sz := Z.to_nat (fuse.readSize req)).
  set (off := Z.to_nat (fuse.readOffset req)).
  assert (Hbuf : List.length (take sz (array data)) = sz).
  { rewrite length_take. rewrite cap_array in Hs1. unfold Zlen in Hs1.
    unfold sz. lia. }
  destruct (take sz (array data)) as [|x b0] eqn:Eb.
  - simpl in Hbuf. unfold Bytes.ReadAt.
    change (Z.eqb (Zlen (@nil byte)) 0) with true. cbv iota. run.
    rewrite upto_ok by (unfold cap, Zlen; cbn [elems room List.length]; lia).
    run. rewrite bool_decide_eq_false_2 by done.
    rewrite <- Hbuf. eexists. reflexivity.
  - rewrite Bytes_ReadAt_eq by done. run. cbv beta iota zeta.
    rewrite Hbuf. fold off.
    set (n := Nat.min sz (List.length (elems dev) - off)).
    assert (Hn : List.length (take n (drop off (elems dev))) = n).
    { rewrite length_take, length_drop. unfold n. lia. }
    rewrite upto_ok.
    2:{ unfold cap, Zlen. cbn [elems room].
        rewrite length_app, Hn. lia. }
    run. rewrite Nat2Z.id. unfold array. cbn [elems room].
    rewrite <- app_assoc, take_app_length' by done.
    rewrite bool_decide_eq_true_2 by done.
    eexists. f_equal. f_equal. f_equal. f_equal.
    unfold n. destruct (Nat.min_spec sz (List.length (elems dev) - off))
      as [[Hlt ->]|[Hge ->]]; [done|].
    rewrite !take_ge; [done| |]; rewrite length_drop; lia.
Qed.

(** X18: [Read] of a bound read-write file over [Bytes], at a
    non-negative offset and for a size within the capacity of the answer:
    it returns no error, the answer holds the bytes from the offset on,
    at most [req.Size] of them and none at or beyond the end; the access
    time is the clock's and the backend is unchanged. *)
Theorem RW_Read_Bytes clock c (f : RW Bytes.t) req data a :
  rw_fs f = Some a →
  0 ≤ fuse.readOffset req → 0 ≤ fuse.readSize req ≤ cap data →
  ∃ data',
    @RW_Read _ BRW clock c f req data
    = Ret (mkRW (rw_name f) (withAtime (rw_attr f) (clock c)) (rw_fs f)
             (rw_dev f), data', nil_error, S c)
    ∧ elems data'
      = take (Z.to_nat (fuse.readSize req))
          (drop (Z.to_nat (fuse.readOffset req)) (elems (rw_dev f))).
Proof.
  intros Hfs Hoff Hsize. unfold RW_Read. rewrite Hfs.
  destruct (readInto_Bytes (rw_dev f) req data Hoff Hsize) as [rest ->].
  run. eexists. split; [reflexivity|done].
Qed.

(** X19: what [Write] stores in a bound read-write file over [Bytes],
    [Read] at the same offset returns: [Write] reports the length of the
    data and stamps the modification time, [Read] returns the data and
    stamps the access time, each reading the clock once. *)
Theorem RW_Write_Read clock c (f : RW Bytes.t) b off data a :
  rw_fs f = Some a → b ≠ [] →
  0 ≤ off → off + Zlen b ≤ maxInt64 → Zlen b ≤ cap data →
  ∃ f1 f2 data',
    @RW_Write _ BRW clock c f (fuse.mkWriteRequest b off)
    = Ret (f1, Zlen b, nil_error, S c)
    ∧ mtime (rw_attr f1) = clock c
    ∧ @RW_Read _ BRW clock (S c) f1 (fuse.mkReadRequest off (Zlen b)) data
      = Ret (f2, data', nil_error, S (S c))
    ∧ elems data' = b
    ∧ atime (rw_attr f2) = clock (S c)
    ∧ rw_dev f2 = rw_dev f1.
Proof.
  intros Hfs Hb Hoff Hmax Hcap. pose proof (Zlen_nonneg b) as Hb0.
  unfold RW_Write. rewrite Hfs. cbn [rw_WriteAt BRW fuse.writeData
                                      fuse.writeOffset].
  destruct (WriteAt_shape spareOnGrow (rw_dev f) b off Hoff Hmax)
    as (pre & rest & -> & Hpre & _).
  destruct (readInto_Bytes (mk (pre ++ b) rest)
              (fuse.mkReadRequest off (Zlen b)) data) as [rest' Hread];
    [done|done|].
  run. eexists _, _, _. split; [reflexivity|]. split; [done|].
  unfold RW_Read. cbn [rw_fs rw_dev rw_attr rw_name]. rewrite ?Hfs.
  rewrite Hread.
  run. split; [reflexivity|]. cbn [elems fuse.readSize fuse.readOffset].
  split; [|done].
  rewrite <- Hpre, drop_app_length. unfold Zlen. rewrite Nat2Z.id.
  apply firstn_all.
Qed.

(** X20: [Attr] of a read-write file over [Bytes] never fails and
    reports the attributes of the node with the length of the buffer as
    size; after a [Write] of [b] at [off] it reports [off + len(b)]. *)
Theorem RW_Attr_Bytes clock c (f : RW Bytes.t) b off (at0 : fuse.Attr) a :
  rw_fs f = Some a → len (rw_dev f) ≤ maxInt64 →
  0 ≤ off → off + Zlen b ≤ maxInt64 →
  (∃ at1, @RW_Attr _ BRW f at0 = Ret (at1, nil_error)
          ∧ fuse.Size at1 = len (rw_dev f)
          ∧ fuse.Mode at1 = mode (rw_attr f)
          ∧ fuse.Uid at1 = uid (rw_attr f)
          ∧ fuse.Gid at1 = gid (rw_attr f)
          ∧ fuse.Inode at1 = fuse.Inode at0)
  ∧ (∃ f1 at1,
       @RW_Write _ BRW clock c f (fuse.mkWriteRequest b off)
       = Ret (f1, Zlen b, nil_error, S c)
       ∧ @RW_Attr _ BRW f1 at0 = Ret (at1, nil_error)
       ∧ fuse.Size at1 = off + Zlen b
       ∧ fuse.Mtime at1 = clock c).
Proof.
  intros Hfs Hlen Hoff Hmax. pose proof (Zlen_nonneg b) as Hb0.
  pose proof (Zlen_nonneg (elems (rw_dev f))) as He.
  split.
  - unfold RW_Attr, attrSize. cbn [rw_Size BRW Bytes.Size]. run.
    eexists. split; [reflexivity|]. cbn.
    split; [|done]. by apply uint64_small.
  - unfold RW_Write. rewrite Hfs.
    cbn [rw_WriteAt BRW fuse.writeData fuse.writeOffset].
    destruct (WriteAt_shape spareOnGrow (rw_dev f) b off Hoff Hmax)
      as (pre & rest & -> & Hpre & _).
    run. eexists _, _. split; [reflexivity|].
    unfold RW_Attr, attrSize. cbn [rw_Size BRW Bytes.Size rw_dev]. run.
    split; [reflexivity|]. cbn. split; [|done].
    unfold len. cbn [elems]. rewrite Zlen_app.
    rewrite uint64_small; unfold Zlen in *; lia.
Qed.

(** X21: a method that stamps a time needs the file system: on a node
    whose [fs] is nil, [Read] and [Write] of the files and [Lookup] and
    [Own] of a directory panic with a nil pointer dereference. *)
Theorem unbound_node_panics {R W X D : Type} `{!Reader D, !Writer D,
    !ReadWriter D} clock c :
  (∀ (f : RW D) req data, rw_fs f = None →
     RW_Read clock c f req data = Panic "nil pointer dereference")
  ∧ (∀ (f : RO D) req data, ro_fs f = None →
       RO_Read clock c f req data = Panic "nil pointer dereference")
  ∧ (∀ (f : RW D) req, rw_fs f = None →
       RW_Write clock c f req = Panic "nil pointer dereference")
  ∧ (∀ (f : WO D) req, wo_fs f = None →
       WO_Write clock c f req = Panic "nil pointer dereference")
  ∧ (∀ (d : Dir R W X) name, d_fs d = None →
       Dir_Lookup clock c d name = Panic "nil pointer dereference")
  ∧ (∀ (d : Dir R W X) u g, d_fs d = None →
       Dir_Own clock c d u g = Panic "nil pointer dereference").
Proof.
  repeat split; intros;
    unfold RW_Read, RO_Read, RW_Write, WO_Write, Dir_Lookup, Dir_Own;
    by match goal with H : _ = None |- _ => rewrite H end.
Qed.

End NodeIO.

(** ** Directory listing *)

Section Listing.

Variable spareOnGrow : nat → nat → nat.

Local Abbreviation BRW := (Bytes_ReadWriter spareOnGrow).
Local Abbreviation Node := (Node GoString.t Func.t Bytes.t).
Local Abbreviation Dir := (Dir GoString.t Func.t Bytes.t).
Local Abbreviation Attr_of :=
  (@Node_Attr GoString.t Func.t Bytes.t String_Reader Func_Writer BRW).
Local Abbreviation ReadDirAll :=
  (@Dir_ReadDirAll GoString.t Func.t Bytes.t String_Reader Func_Writer BRW).
Local Abbreviation loop :=
  (@readDirLoop GoString.t Func.t Bytes.t String_Reader Func_Writer BRW).

(** With the three backends of the package no [Attr] fails, and none
    writes the inode. *)
Lemma Node_Attr_ok (n : Node) (a : fuse.Attr) :
  ∃ a', Attr_of n a = Ret (a', nil_error) ∧ fuse.Inode a' = fuse.Inode a.
Proof.
  destruct n as [d|f|f|f]; simpl; eauto.
Qed.

Lemma readDirLoop_ok (l : list (string * Node)) :
  ∀ a acc,
    loop l a acc
    = Ret (acc ++ ((λ p, fuse.mkDirent (fuse.Inode a) p.1) <$> l), nil_error).
Proof.
  induction l as [|[name f] l IH]; intros a acc; simpl.
  - by rewrite app_nil_r.
  - destruct (Node_Attr_ok f a) as (a' & -> & Hi). run.
    rewrite IH, Hi. by rewrite <- app_assoc.
Qed.

(** X22: [ReadDirAll] of a bound directory whose files are over the
    backends of the package returns no error and one entry for each
    child: the names of the entries are the names of the children, each
    once, and every inode is 0, as no [Attr] sets it. These are the names
    for which [Lookup] returns a node. The access time is stamped and
    the children are untouched. *)
Theorem ReadDirAll_lists clock c (d : Dir) a :
  d_fs d = Some a →
  ∃ d' entries,
    ReadDirAll clock c d = Ret (d', entries, nil_error, S c)
    ∧ (∀ name, name ∈ fuse.direntName <$> entries
               ↔ is_Some (files d !! name))
    ∧ NoDup (fuse.direntName <$> entries)
    ∧ Forall (λ e, fuse.direntInode e = 0) entries
    ∧ (∀ name, name ∈ fuse.direntName <$> entries
               ↔ ∃ d'' n, Dir_Lookup clock c d name
                          = Ret (d'', Some n, nil_error, S c))
    ∧ files d' = files d ∧ d_name d' = d_name d ∧ d_fs d' = d_fs d
    ∧ atime (d_attr d') = clock c.
Proof.
  intros Hfs. unfold Dir_ReadDirAll. rewrite readDirLoop_ok. run.
  rewrite Hfs. cbn [app].
  eexists _, _. split; [reflexivity|].
  assert (Hnames : fuse.direntName <$>
                     ((λ p : string * Node, fuse.mkDirent (fuse.Inode zeroAttr) p.1)
                        <$> map_to_list (files d))
                   = (map_to_list (files d)).*1).
  { rewrite <- list_fmap_compose. by apply list_fmap_ext. }
  rewrite Hnames.
  assert (Hin : ∀ name, name ∈ (map_to_list (files d)).*1
                        ↔ is_Some (files d !! name)).
  { intros name. rewrite list_elem_of_fmap. split.
    - intros ([k n] & -> & Hk). apply elem_of_map_to_list in Hk. eauto.
    - intros [n Hn]. exists (name, n). split; [done|].
      by apply elem_of_map_to_list. }
  split; [exact Hin|]. split; [apply NoDup_fst_map_to_list|].
  split; [by apply Forall_fmap, Forall_true|].
  split; [|done].
  intros name. rewrite Hin. unfold Dir_Lookup. rewrite Hfs.
  destruct (files d !! name) as [n|].
  - split; eauto.
  - split; [by intros [? ?]|]. by intros (? & ? & ?).
Qed.

End Listing.

Lemma Setattr_size_Bytes_witness :
  let f := mkRW "foo" (attrOfMode 438) None
             (Bytes.ofList (Sample.bytesOf "with data already here")) in
  let resp := fuse.mkSetattrResponse (fuse.mkFuseAttr 0 0 0 0 0 0 0 0) in
  (∃ f' resp',
     @RW_Setattr _ (Bytes_ReadWriter Sample.exactGrowth) f
       (fuse.mkSetattrRequest 8 17 0 0 0 0 0) resp
     = Ret (f', resp', nil_error)
     ∧ Slice.elems (rw_dev f') = Sample.bytesOf "with data already"
     ∧ fuse.Size (fuse.respAttr resp') = 17
     ∧ rw_attr f' = rw_attr f
     ∧ rw_name f' = rw_name f ∧ rw_fs f' = rw_fs f)
  ∧ @RW_Setattr _ (Bytes_ReadWriter Sample.exactGrowth) f
      (fuse.mkSetattrRequest 8 100 0 0 0 0 0) resp
    = Ret (f, resp, Some (Syscall EINVAL)).
Proof.
  intros f resp. split.
  - refine (proj1 (Setattr_size_Bytes Sample.exactGrowth f
                     (fuse.mkSetattrRequest 8 17 0 0 0 0 0) resp _ _ _) _).
    + reflexivity.
    + split; vm_compute; discriminate.
    + vm_compute; discriminate.
    + vm_compute; discriminate.
  - refine (proj2 (Setattr_size_Bytes Sample.exactGrowth f
                     (fuse.mkSetattrRequest 8 100 0 0 0 0 0) resp _ _ _) _).
    + reflexivity.
    + split; vm_compute; discriminate.
    + vm_compute; discriminate.
    + vm_compute; reflexivity.
Defined.

Lemma RW_Read_Bytes_witness :
  ∃ data',
    @RW_Read _ (Bytes_ReadWriter Sample.exactGrowth) Sample.clock 3
      (mkRW "foo" (attrOfMode 438) (Some 1%nat)
         (Bytes.ofList (Sample.bytesOf "with data")))
      (fuse.mkReadRequest 5 8) (Slice.mk [] (Slice.zeros 8))
    = Ret (mkRW "foo" (withAtime (attrOfMode 438) 1003) (Some 1%nat)
             (Bytes.ofList (Sample.bytesOf "with data")),
           data', nil_error, 4%nat)
    ∧ Slice.elems data' = Sample.bytesOf "data".
Proof.
  apply (RW_Read_Bytes Sample.exactGrowth Sample.clock 3
           (mkRW "foo" (attrOfMode 438) (Some 1%nat)
              (Bytes.ofList (Sample.bytesOf "with data")))
           (fuse.mkReadRequest 5 8) (Slice.mk [] (Slice.zeros 8)) 1%nat).
  - reflexivity.
  - vm_compute. discriminate.
  - split; vm_compute; discriminate.
Defined.

Lemma RW_Write_Read_witness :
  ∃ f1 f2 data',
    @RW_Write _ (Bytes_ReadWriter Sample.exactGrowth) Sample.clock 3
      (mkRW "foo" (attrOfMode 438) (Some 1%nat)
         (Bytes.ofList (Sample.bytesOf "with data")))
      (fuse.mkWriteRequest (Sample.bytesOf "... more") 9)
    = Ret (f1, 8, nil_error, 4%nat)
    ∧ mtime (rw_attr f1) = 1003
    ∧ @RW_Read _ (Bytes_ReadWriter Sample.exactGrowth) Sample.clock 4 f1
        (fuse.mkReadRequest 9 8) (Slice.mk [] (Slice.zeros 8))
      = Ret (f2, data', nil_error, 5%nat)
    ∧ Slice.elems data' = Sample.bytesOf "... more"
    ∧ atime (rw_attr f2) = 1004
    ∧ rw_dev f2 = rw_dev f1.
Proof.
  apply (RW_Write_Read Sample.exactGrowth Sample.clock 3
           (mkRW "foo" (attrOfMode 438) (Some 1%nat)
              (Bytes.ofList (Sample.bytesOf "with data")))
           (Sample.bytesOf "... more") 9 (Slice.mk [] (Slice.zeros 8))
           1%nat).
  - reflexivity.
  - discriminate.
  - vm_compute. discriminate.
  - vm_compute. discriminate.
  - vm_compute. discriminate.
Defined.

Lemma RW_Attr_Bytes_witness :
  let f := mkRW "foo" (attrOfMode 438) (Some 1%nat)
             (Bytes.ofList (Sample.bytesOf "with data")) in
  (∃ at1, @RW_Attr _ (Bytes_ReadWriter Sample.exactGrowth) f
            zeroAttr = Ret (at1, nil_error)
          ∧ fuse.Size at1 = 9
          ∧ fuse.Mode at1 = 438
          ∧ fuse.Uid at1 = 0
          ∧ fuse.Gid at1 = 0
          ∧ fuse.Inode at1 = 0)
  ∧ (∃ f1 at1,
       @RW_Write _ (Bytes_ReadWriter Sample.exactGrowth) Sample.clock 3 f
         (fuse.mkWriteRequest (Sample.bytesOf "... more") 9)
       = Ret (f1, 8, nil_error, 4%nat)
       ∧ @RW_Attr _ (Bytes_ReadWriter Sample.exactGrowth) f1
           zeroAttr = Ret (at1, nil_error)
       ∧ fuse.Size at1 = 9 + 8
       ∧ fuse.Mtime at1 = 1003).
Proof.
  intros f.
  apply (RW_Attr_Bytes Sample.exactGrowth Sample.clock 3 f
           (Sample.bytesOf "... more") 9
           zeroAttr 1%nat).
  - reflexivity.
  - vm_compute. discriminate.
  - vm_compute. discriminate.
  - vm_compute. discriminate.
Defined.

Lemma unbound_node_panics_witness :
  @RW_Read _ (Bytes_ReadWriter Sample.exactGrowth) Sample.clock 0
    (mkRW "foo" (attrOfMode 438) None (Bytes.ofList (Sample.bytesOf "x")))
    (fuse.mkReadRequest 0 1) (Slice.mk [] (Slice.zeros 1))
  = Panic "nil pointer dereference"
  ∧ Dir_Own Sample.clock 0
      (mkDir (R:=GoString.t) (W:=Func.t) (X:=Bytes.t) "sys" (attrOfMode 509)
         ∅ None) 1000 1000
    = Panic "nil pointer dereference".
Proof.
  destruct (@unbound_node_panics GoString.t Func.t Bytes.t Bytes.t
              {| r_ReadAt f b off :=
                   '(b', n, e) ← Bytes.ReadAt f b off; Ret (f, b', n, e);
                 r_Size f := Ret (Bytes.Size f) |}
              (Bytes_Writer Sample.exactGrowth)
              (Bytes_ReadWriter Sample.exactGrowth) Sample.clock 0%nat)
    as (HR & _ & _ & _ & _ & HO).
  split.
  - apply HR. reflexivity.
  - apply HO. reflexivity.
Defined.

Lemma ReadDirAll_lists_witness :
  ∃ d' entries,
    @Dir_ReadDirAll GoString.t Func.t Bytes.t String_Reader Func_Writer
      (Bytes_ReadWriter Sample.exactGrowth) Sample.clock 20 Sample.devDir
    = Ret (d', entries, nil_error, 21%nat)
    ∧ (∀ name, name ∈ fuse.direntName <$> entries
               ↔ is_Some (files Sample.devDir !! name))
    ∧ NoDup (fuse.direntName <$> entries)
    ∧ Forall (λ e, fuse.direntInode e = 0) entries
    ∧ (∀ name, name ∈ fuse.direntName <$> entries
               ↔ ∃ d'' n, Dir_Lookup Sample.clock 20 Sample.devDir name
                          = Ret (d'', Some n, nil_error, 21%nat))
    ∧ files d' = files Sample.devDir ∧ d_name d' = d_name Sample.devDir
    ∧ d_fs d' = d_fs Sample.devDir
    ∧ atime (d_attr d') = 1020.
Proof.
  apply (ReadDirAll_lists Sample.exactGrowth Sample.clock 20 Sample.devDir
           1%nat).
  vm_compute. reflexivity.
Defined.

Lemma Bind_Unbind_witness :
  ∃ fs1 fs2 node d2,
    Bind Sample.sysfs "/dev" Sample.extra = Ret (fs1, nil_error)
    ∧ Unbind fs1 "/dev/extra" = Ret (fs2, Some node, nil_error)
    ∧ Name node = Name Sample.extra
    ∧ (∀ m, reachable node m → Sys m = None)
    ∧ descend (root fs2) (Path.pathElements (Path.Clean "/dev")) = Some d2
    ∧ files d2 !! Name Sample.extra = None
    ∧ (∀ k, k ≠ Name Sample.extra →
            (is_Some (files d2 !! k) ↔ is_Some (files Sample.devDir !! k))).
Proof.
  apply (Bind_Unbind Sample.sysfs "/dev" "/dev/extra" Sample.extra
           Sample.devDir).
  - vm_compute. reflexivity.
  - vm_compute. reflexivity.
  - vm_compute. reflexivity.
Defined.

(** ** File nodes on the other backends *)

Section OtherBackends.

Import Slice.

(** X23: a write-only file over [Func]. [Write] on a bound node hands
    the data and the offset to the function and returns its count and
    its error, and with the nil function it returns 0 and [EBADFD]; the
    modification time is stamped in both cases. [Setattr] with a size
    succeeds whatever the size, reports the size 0 and leaves the
    backend as it is. *)
Theorem WO_Func clock c (f : WO Func.t) wreq sreq resp a :
  wo_fs f = Some a →
  (∀ g, wo_dev f = Some g →
     WO_Write clock c f wreq
     = Ret (mkWO (wo_name f) (withMtime (wo_attr f) (clock c)) (wo_fs f)
              (wo_dev f),
            (g (fuse.writeData wreq) (fuse.writeOffset wreq)).1,
            (g (fuse.writeData wreq) (fuse.writeOffset wreq)).2, S c))
  ∧ (wo_dev f = None →
     WO_Write clock c f wreq
     = Ret (mkWO (wo_name f) (withMtime (wo_attr f) (clock c)) (wo_fs f)
              (wo_dev f), 0, Some (Syscall EBADFD), S c))
  ∧ (hasFlag (fuse.reqValid sreq) fuse.SetattrSize = true →
     ∃ f' resp',
       WO_Setattr f sreq resp = Ret (f', resp', nil_error)
       ∧ fuse.Size (fuse.respAttr resp') = 0
       ∧ wo_dev f' = wo_dev f
       ∧ wo_attr f' = (setAttr (wo_attr f) resp sreq).1).
Proof.
  intros Hfs. split; [|split].
  - intros g Hg. unfold WO_Write. rewrite Hfs, Hg. cbn [w_WriteAt Func_Writer].
    unfold Func.WriteAt. by destruct (g _ _).
  - intros Hg. unfold WO_Write. rewrite Hfs, Hg. reflexivity.
  - intros Hflag. unfold WO_Setattr, resize. rewrite Hflag.
    cbn [w_Truncate w_Size Func_Writer]. unfold Func.Truncate, Func.Size.
    run. cbv beta iota. run. cbv beta iota. run.
    rewrite !setAttr_eq. cbn [fst snd].
    eexists _, _. split; [reflexivity|]. cbn. done.
Qed.

Lemma readInto_String (s : GoString.t) req (data : Slice.t) :
  0 ≤ fuse.readOffset req → 0 ≤ fuse.readSize req ≤ cap data →
  ∃ rest,
    readInto (@r_ReadAt _ String_Reader) s req data
    = Ret (s,
           mk (take (Z.to_nat (fuse.readSize req))
                 (drop (Z.to_nat (fuse.readOffset req)) (GoString.bytes s)))
              rest,
           nil_error).
Proof.
  intros Hoff [Hs0 Hs1]. unfold readInto.
  rewrite upto_ok by done. run. cbn [elems room r_ReadAt String_Reader].
  set (sz := Z.to_nat (fuse.readSize req)).
  set (off := Z.to_nat (fuse.readOffset req)).
  assert (Hbuf : List.length (take sz (array data)) = sz).
  { rewrite length_take. rewrite cap_array in Hs1. unfold Zlen in Hs1.
    unfold sz. lia. }
  rewrite String_ReadAt_eq by done. run. cbv beta iota zeta.
  rewrite Hbuf. fold off.
  set (n := Nat.min sz (List.length (GoString.bytes s) - off)).
  assert (Hn : List.length (take n (drop off (GoString.bytes s))) = n).
  { rewrite length_take, length_drop. unfold n. lia. }
  rewrite upto_ok.
  2:{ unfold cap, Zlen. cbn [elems room].
      rewrite length_app, Hn. lia. }
  run. rewrite Nat2Z.id. unfold array. cbn [elems room].
  rewrite <- app_assoc, take_app_length' by done.
  rewrite bool_decide_eq_true_2 by done.
  eexists. f_equal. f_equal. f_equal. f_equal.
  unfold n. destruct (Nat.min_spec sz (List.length (GoString.bytes s) - off))
    as [[Hlt ->]|[Hge ->]]; [done|].
  rewrite !take_ge; [done| |]; rewrite length_drop; lia.
Qed.

(** X24: [Read] of a bound read-only file over [String], for a size
    within the capacity of the answer. At a non-negative offset it
    returns no error and the bytes of the string from the offset on, at
    most [req.Size] of them; at a negative offset it returns [EINVAL]
    and an empty answer. The access time is stamped in both cases. *)
Theorem RO_Read_String clock c (f : RO GoString.t) req data a :
  ro_fs f = Some a → 0 ≤ fuse.readSize req ≤ cap data →
  (0 ≤ fuse.readOffset req →
   ∃ data',
     RO_Read clock c f req data
     = Ret (mkRO (ro_name f) (withAtime (ro_attr f) (clock c)) (ro_fs f)
              (ro_dev f), data', nil_error, S c)
     ∧ elems data'
       = take (Z.to_nat (fuse.readSize req))
           (drop (Z.to_nat (fuse.readOffset req))
              (GoString.bytes (ro_dev f))))
  ∧ (fuse.readOffset req < 0 →
     ∃ data',
       RO_Read clock c f req data
       = Ret (mkRO (ro_name f) (withAtime (ro_attr f) (clock c)) (ro_fs f)
                (ro_dev f), data', Some (Syscall EINVAL), S c)
       ∧ elems data' = []).
Proof.
  intros Hfs Hsize. split.
  - intros Hoff. unfold RO_Read. rewrite Hfs.
    destruct (readInto_String (ro_dev f) req data Hoff Hsize) as [rest ->].
    run. eexists. split; [reflexivity|done].
  - intros Hoff. unfold RO_Read, readInto. rewrite Hfs.
    rewrite upto_ok by done. run. cbn [elems room r_ReadAt String_Reader].
    unfold GoString.ReadAt. destruct (fuse.readOffset req <? 0) eqn:E; [|lia].
    run. rewrite upto_ok by (pose proof (Zlen_nonneg
      (take (Z.to_nat (fuse.readSize req)) (array data))); unfold cap;
      cbn [elems room]; pose proof (Zlen_nonneg
      (drop (Z.to_nat (fuse.readSize req)) (array data))); lia).
    run. rewrite bool_decide_eq_false_2 by done.
    eexists. split; [reflexivity|done].
Qed.

End OtherBackends.

Lemma WO_Func_witness :
  let f := mkWO "command" (attrOfMode 146) (Some 1%nat) Sample.command in
  WO_Write Sample.clock 7 f (fuse.mkWriteRequest (Sample.bytesOf "start") 0)
  = Ret (mkWO "command" (withMtime (attrOfMode 146) 1007) (Some 1%nat)
           Sample.command, 5, nil_error, 8%nat)
  ∧ (∃ f' resp',
       WO_Setattr f (fuse.mkSetattrRequest 8 0 0 0 0 0 0)
         (fuse.mkSetattrResponse zeroAttr)
       = Ret (f', resp', nil_error)
       ∧ fuse.Size (fuse.respAttr resp') = 0
       ∧ wo_dev f' = wo_dev f
       ∧ wo_attr f' = wo_attr f).
Proof.
  intros f.
  destruct (WO_Func Sample.clock 7 f
              (fuse.mkWriteRequest (Sample.bytesOf "start") 0)
              (fuse.mkSetattrRequest 8 0 0 0 0 0 0)
              (fuse.mkSetattrResponse zeroAttr) 1%nat eq_refl)
    as (HW & _ & HS).
  split.
  - apply (HW (λ b _, (Slice.Zlen b, nil_error))). reflexivity.
  - apply HS. reflexivity.
Defined.

Lemma RO_Read_String_witness :
  let f := mkRO "ev" (attrOfMode 292) (Some 1%nat) "constant data" in
  (∃ data',
     RO_Read Sample.clock 7 f (fuse.mkReadRequest 9 16)
       (Slice.mk [] (Slice.zeros 16))
     = Ret (mkRO "ev" (withAtime (attrOfMode 292) 1007) (Some 1%nat)
              "constant data", data', nil_error, 8%nat)
     ∧ Slice.elems data' = Sample.bytesOf "data")
  ∧ (∃ data',
       RO_Read Sample.clock 7 f (fuse.mkReadRequest (-1) 16)
         (Slice.mk [] (Slice.zeros 16))
       = Ret (mkRO "ev" (withAtime (attrOfMode 292) 1007) (Some 1%nat)
                "constant data", data', Some (Syscall EINVAL), 8%nat)
       ∧ Slice.elems data' = []).
Proof.
  intros f. split.
  - refine (proj1 (RO_Read_String Sample.clock 7 f (fuse.mkReadRequest 9 16)
                     (Slice.mk [] (Slice.zeros 16)) 1%nat _ _) _).
    + reflexivity.
    + split; vm_compute; discriminate.
    + vm_compute; discriminate.
  - refine (proj2 (RO_Read_String Sample.clock 7 f
                     (fuse.mkReadRequest (-1) 16)
                     (Slice.mk [] (Slice.zeros 16)) 1%nat _ _) _).
    + reflexivity.
    + split; vm_compute; discriminate.
    + vm_compute; reflexivity.
Defined.

Lemma sync_keeps_witness :
  ∃ f',
    (sync (Some 1%nat) Sample.clock
       (NRW (R:=GoString.t) (W:=Func.t)
          (mkRW "foo" (attrOfMode 438) None
             (Bytes.ofList (Sample.bytesOf "with data")))) 0).1
    = NRW f'
    ∧ rw_dev f' = Bytes.ofList (Sample.bytesOf "with data").
Proof.
  destruct (sync_keeps (Some 1%nat) Sample.clock
              (NRW (R:=GoString.t) (W:=Func.t)
                 (mkRW "foo" (attrOfMode 438) None
                    (Bytes.ofList (Sample.bytesOf "with data")))) 0)
    as (_ & _ & _ & _ & _ & _ & _ & HRW & _).
  apply (HRW (mkRW "foo" (attrOfMode 438) None
                (Bytes.ofList (Sample.bytesOf "with data")))).
  reflexivity.
Defined.

Lemma Truncate_result_witness :
  Bytes.Truncate (Bytes.ofList (Sample.bytesOf "abcdefgh")) 9
  = Ret (Bytes.ofList (Sample.bytesOf "abcdefgh"), Some (Syscall EINVAL))
  ∧ (∃ f', Bytes.Truncate (Bytes.ofList (Sample.bytesOf "abcdefgh")) 3
           = Ret (f', nil_error)
           ∧ Slice.elems f' = Sample.bytesOf "abc"
           ∧ Slice.len f' = 3 ∧ Slice.cap f' = 8
           ∧ Forall (λ x, x = x00) (Slice.room f')).
Proof.
  split.
  - apply (proj1 (Truncate_result
                    (Bytes.ofList (Sample.bytesOf "abcdefgh")) 9)).
    right. vm_compute. reflexivity.
  - apply (proj2 (Truncate_result
                    (Bytes.ofList (Sample.bytesOf "abcdefgh")) 3)).
    split; [lia | vm_compute; discriminate].
Defined.

(** ** Back-references after [Sync] and [Unbind] *)

Section BackReferences.

Context {R W X : Type}.

Local Abbreviation Node := (Node R W X).
Local Abbreviation Dir := (Dir R W X).
Local Abbreviation FileSystem := (FileSystem R W X).

Implicit Types (n m ch : Node) (d : Dir) (fs : FileSystem).

(** The nodes reachable from a node are those found by following
    names. *)
Lemma reachable_nodeAt n m : reachable n m ↔ ∃ ks, nodeAt n ks = Some m.
Proof.
  split.
  - induction 1 as [n|d k ch m Hk _ [ks IH]].
    + by exists [].
    + exists (k :: ks). simpl. by rewrite Hk.
  - intros [ks Hks]. revert n Hks.
    induction ks as [|k ks IH]; intros n Hks; simpl in Hks.
    + injection Hks as ->. constructor.
    + destruct n as [d| | |]; try done. simpl in Hks.
      destruct (files d !! k) as [ch|] eqn:Hk; [|done].
      eapply reach_child; [exact Hk|]. by apply IH.
Qed.

Lemma sync_sameNode filesys clock n c :
  sameNode n (sync filesys clock n c).1.
Proof.
  destruct n as [d|f|f|f].
  - destruct (sync_dir_shape filesys clock d c) as (d' & c' & E & _).
    rewrite sync_dir in E |- *.
    destruct (if bool_decide (d_fs d = filesys) then (NDir d, c)
              else SetSys (NDir d) filesys clock c) as [n1 c1] eqn:E1.
    assert (H1 : sameNode (NDir d) n1).
    { revert E1. case_bool_decide.
      - by intros [= <- <-].
      - unfold SetSys. by destruct filesys; intros [= <- <-]. }
    destruct (map_fold _ _ _) as [fl c2]. simpl in *.
    destruct n1 as [d1| | |]; try (by destruct H1 as (_ & _ & _ & _ & [])).
    destruct H1 as (Hn & Hm & Hu & Hg & _). simpl in *.
    by repeat split.
  - rewrite sync_file by done. case_bool_decide; [by repeat split|].
    unfold SetSys. by destruct filesys.
  - rewrite sync_file by done. case_bool_decide; [by repeat split|].
    unfold SetSys. by destruct filesys.
  - rewrite sync_file by done. case_bool_decide; [by repeat split|].
    unfold SetSys. by destruct filesys.
Qed.

(** [sync] keeps every node where it is: what was found by following
    names is found by the same names afterwards, synced. *)
Lemma sync_nodeAt filesys clock ks :
  ∀ n c m, nodeAt n ks = Some m →
    ∃ ci, nodeAt (sync filesys clock n c).1 ks
          = Some (sync filesys clock m ci).1.
Proof.
  induction ks as [|k ks IH]; intros n c m Hm; simpl in Hm.
  - injection Hm as ->. by exists c.
  - destruct n as [d| | |]; try done. simpl in Hm.
    destruct (files d !! k) as [ch|] eqn:Hk; [|done].
    rewrite syncDir_sync. simpl.
    destruct (syncDir_children filesys clock d c k) as [Hch _].
    destruct (Hch ch Hk) as [ci ->].
    by apply IH.
Qed.

(** And [sync] adds no node. *)
Lemma sync_nodeAt_inv filesys clock ks :
  ∀ n c m', nodeAt (sync filesys clock n c).1 ks = Some m' →
    ∃ m, nodeAt n ks = Some m.
Proof.
  induction ks as [|k ks IH]; intros n c m' Hm'; simpl in Hm'.
  - by exists n.
  - destruct n as [d|f|f|f].
    + rewrite syncDir_sync in Hm'. simpl in Hm'.
      destruct (files (syncDir filesys clock d c).1 !! k) as [ch'|] eqn:Hk';
        [|done].
      destruct (sync_dir_shape filesys clock d c)
        as (d' & c' & E & _ & _ & Hch).
      rewrite syncDir_sync in E. injection E as E _. rewrite E in Hk'.
      destruct (Hch k ch' Hk') as (ch & ci & Hk & ->).
      simpl. rewrite Hk. by eapply IH.
    + pose proof (sync_sameNode filesys clock (NRO f) c)
        as (_ & _ & _ & _ & Hkind).
      by destruct (sync filesys clock (NRO f) c).1.
    + pose proof (sync_sameNode filesys clock (NWO f) c)
        as (_ & _ & _ & _ & Hkind).
      by destruct (sync filesys clock (NWO f) c).1.
    + pose proof (sync_sameNode filesys clock (NRW f) c)
        as (_ & _ & _ & _ & Hkind).
      by destruct (sync filesys clock (NRW f) c).1.
Qed.

(** C6: [Sync] leaves the tree in place with every back-reference set.
    Every node found from the root by following names is found by the
    same names afterwards, as the same node (type, name, mode, owner,
    backend) with the address of the file system as back-reference;
    [Sync] adds no node; and every node reachable from the root
    afterwards has that back-reference. A successful [Unbind] returns the
    child it has found under the last name of the path, detached: every
    node found below that child is found by the same names below the
    node returned, as the same node with the nil back-reference, no node
    is added, and every node reachable from the node returned has the
    nil back-reference. *)
Theorem Sync_Unbind_back_reference :
  (∀ fs,
     (∀ n, reachable (NDir (root (FS_Sync fs))) n → Sys n = Some (addr fs))
     ∧ (∀ ks m, nodeAt (NDir (root fs)) ks = Some m →
          ∃ m', nodeAt (NDir (root (FS_Sync fs))) ks = Some m'
                ∧ sameNode m m' ∧ Sys m' = Some (addr fs))
     ∧ (∀ ks m', nodeAt (NDir (root (FS_Sync fs))) ks = Some m' →
          ∃ m, nodeAt (NDir (root fs)) ks = Some m))
  ∧ (∀ fs path fs' node,
       Unbind fs path = Ret (fs', Some node, nil_error) →
       ∃ d0 node0,
         descend (root fs)
           (Path.pathElements (Path.Split (Path.Clean path)).1) = Some d0
         ∧ files d0 !! (Path.Split (Path.Clean path)).2 = Some node0
         ∧ (∀ n, reachable node n → Sys n = None)
         ∧ (∀ ks m, nodeAt node0 ks = Some m →
              ∃ m', nodeAt node ks = Some m' ∧ sameNode m m'
                    ∧ Sys m' = None)
         ∧ (∀ ks m', nodeAt node ks = Some m' →
              ∃ m, nodeAt node0 ks = Some m)).
Proof.
  split.
  - intros fs.
    assert (Hroot : NDir (root (FS_Sync fs))
                    = (sync (Some (addr fs)) (now fs) (NDir (root fs))
                         (ticks fs)).1).
    { unfold FS_Sync. rewrite syncDir_sync.
      by destruct (syncDir _ _ _ _). }
    assert (Haddr : ∀ n, reachable (NDir (root (FS_Sync fs))) n →
                         Sys n = Some (addr fs)).
    { intros n Hn. rewrite Hroot in Hn. by eapply sync_reachable. }
    split; [exact Haddr|]. split.
    + intros ks m Hm.
      destruct (sync_nodeAt (Some (addr fs)) (now fs) ks _ (ticks fs) m Hm)
        as [ci Hm'].
      rewrite <- Hroot in Hm'.
      eexists. split; [exact Hm'|]. split; [apply sync_sameNode|].
      apply Haddr, reachable_nodeAt. eauto.
    + intros ks m' Hm'. rewrite Hroot in Hm'.
      by eapply sync_nodeAt_inv.
  - intros fs path fs' node. unfold Unbind.
    destruct (if (String.length (Path.Clean path) =? 0)%nat then _ else _)
      as [[|]|msg]; [done| |done].
    run. destruct (Path.Split (Path.Clean path)) as [dir name]. cbn [fst snd].
    destruct (walkPath (root fs) "unbind" dir) as [[n0 [e|]]|msg] eqn:Hw;
      [done| |done].
    run. destruct n0 as [[d| | |]|]; try done.
    destruct (files d !! name) as [node0|] eqn:Hname; [|done].
    apply walkPath_dir_inv in Hw.
    destruct (updateDirAt _ _ _ _) as [r c0].
    destruct (sync None (now fs) node0 (ticks fs)) as [node' c] eqn:E.
    intros [= _ <-].
    assert (Hnode : node' = (sync None (now fs) node0 (ticks fs)).1)
      by (by rewrite E).
    assert (Hnil : ∀ n, reachable node' n → Sys n = None).
    { intros n Hn. rewrite Hnode in Hn. by eapply sync_reachable. }
    exists d, node0. split; [done|]. split; [done|].
    split; [exact Hnil|]. split.
    + intros ks m Hm.
      destruct (sync_nodeAt None (now fs) ks node0 (ticks fs) m Hm)
        as [ci Hm'].
      rewrite <- Hnode in Hm'.
      eexists. split; [exact Hm'|]. split; [apply sync_sameNode|].
      apply Hnil, reachable_nodeAt. eauto.
    + intros ks m' Hm'. rewrite Hnode in Hm'.
      by eapply sync_nodeAt_inv.
Qed.

End BackReferences.

Lemma Sync_Unbind_back_reference_witness :
  (Sys (NDir Sample.devDir) = Some (addr Sample.unsynced)
   ∧ ∃ m', nodeAt (NDir (root (FS_Sync Sample.unsynced))) ["dev"; "foo"]
           = Some m'
           ∧ sameNode
               (Sample.rw "foo" 438
                  (Bytes.ofList (Sample.bytesOf "with data already here")))
               m'
           ∧ Sys m' = Some (addr Sample.unsynced))
  ∧ (∃ d0 node0,
       descend (root Sample.sysfs)
         (Path.pathElements (Path.Split (Path.Clean "/dev/input")).1)
       = Some d0
       ∧ files d0 !! (Path.Split (Path.Clean "/dev/input")).2 = Some node0
       ∧ (∀ n, reachable Sample.detached n → Sys n = None)
       ∧ (∀ ks m, nodeAt node0 ks = Some m →
            ∃ m', nodeAt Sample.detached ks = Some m' ∧ sameNode m m'
                  ∧ Sys m' = None)
       ∧ (∀ ks m', nodeAt Sample.detached ks = Some m' →
            ∃ m, nodeAt node0 ks = Some m)).
Proof.
  destruct (@Sync_Unbind_back_reference GoString.t Func.t Bytes.t)
    as [HS HU].
  split.
  - destruct (HS Sample.unsynced) as (Hreach & Hkeep & _). split.
    + apply (Hreach (NDir Sample.devDir)).
      apply (reach_child _ "dev" (NDir Sample.devDir)); [|apply reach_here].
      vm_compute. reflexivity.
    + apply (Hkeep ["dev"; "foo"]).
      vm_compute. reflexivity.
  - apply (HU Sample.sysfs "/dev/input" Sample.afterUnbind Sample.detached).
    vm_compute. reflexivity.
Defined.
